(** * onionize: capability-slug gate and publication lifecycle

    A shallow embedding of [lib/onionize.go].  Go strings are byte
    sequences and are modelled by [string]; a pointer that may be nil is
    an [option]; a call that may panic returns an [Outcome]; the
    effects of the request handler and of [Onionize] are recorded as
    event traces. *)

From Stdlib Require Import String Ascii List ZArith Lia Bool Arith.
Import ListNotations.

Local Open Scope string_scope.
Local Open Scope list_scope.

(** Go's [error] values are identified with their messages. *)
Definition error := string.

(** The double quote character, for the messages that quote a URL. *)
Definition dquote : string := String (ascii_of_nat 34) EmptyString.

(** ** Panics

    [Outcome A] is the result of a Go expression that either yields a
    value or panics (nil dereference, slice bound out of range). *)

Inductive Outcome (A : Type) : Type :=
| Return (a : A)
| Panic (msg : string).

Arguments Return {A} a.
Arguments Panic {A} msg.

(** ** Package strings *)

Module strings.

(** [c] occurs in [cutset]. *)
Fixpoint IndexByte (cutset : string) (c : ascii) : bool :=
  match cutset with
  | EmptyString => false
  | String d cutset' => if Ascii.eqb c d then true else IndexByte cutset' c
  end.

(** [strings.TrimLeft(s, cutset)]: [s] without all leading bytes
    contained in [cutset]. *)
Fixpoint TrimLeft (s cutset : string) : string :=
  match s with
  | EmptyString => EmptyString
  | String c s' => if IndexByte cutset c then TrimLeft s' cutset else s
  end.

(** [strings.HasPrefix(s, prefix)]: [s] is at least as long as
    [prefix] and starts with its bytes. *)
Fixpoint HasPrefix (s prefix : string) {struct prefix} : bool :=
  match prefix, s with
  | EmptyString, _ => true
  | String _ _, EmptyString => false
  | String p prefix', String c s' => Ascii.eqb c p && HasPrefix s' prefix'
  end.

(** [s[n:]]. *)
Fixpoint drop (n : nat) (s : string) : string :=
  match n, s with
  | O, _ => s
  | S _, EmptyString => EmptyString
  | S n', String _ s' => drop n' s'
  end.

(** [strings.TrimPrefix(s, prefix)]. *)
Definition TrimPrefix (s prefix : string) : string :=
  if HasPrefix s prefix then drop (String.length prefix) s else s.

(** [strings.HasSuffix(s, suffix)]. *)
Definition HasSuffix (s suffix : string) : bool :=
  (String.length suffix <=? String.length s)%nat
  && String.eqb (drop (String.length s - String.length suffix) s) suffix.

(** [strings.TrimSuffix(s, suffix)]. *)
Definition TrimSuffix (s suffix : string) : string :=
  if HasSuffix s suffix
  then substring 0 (String.length s - String.length suffix) s
  else s.

(** [strings.Replace(s, old, new, -1)] for a non-empty [old]: every
    non-overlapping occurrence, left to right.  [skip] counts the
    bytes of a matched occurrence still to be dropped. *)
Fixpoint replace_from (skip : nat) (s old new : string) : string :=
  match s with
  | EmptyString => EmptyString
  | String c s' =>
      match skip with
      | S k => replace_from k s' old new
      | O =>
          if HasPrefix s old
          then new ++ replace_from (String.length old - 1) s' old new
          else String c (replace_from 0 s' old new)
      end
  end.

Definition ReplaceAll (s old new : string) : string := replace_from 0 s old new.

(** [n] copies of [sep]. *)
Fixpoint Repeat (sep : string) (n : nat) : string :=
  match n with
  | O => EmptyString
  | S n' => sep ++ Repeat sep n'
  end.

(** The outcomes of the loop test of [TrimLeft(s, cutset)], one per
    byte examined: [true] while the byte is stripped, [false] where
    the loop stops, at a byte outside the cutset or at the end. *)
Fixpoint TrimLeft_branches (s cutset : string) : list bool :=
  match s with
  | EmptyString => [false]
  | String c s' =>
      if IndexByte cutset c then true :: TrimLeft_branches s' cutset else [false]
  end.

End strings.

(** [s[:n]]: panics when [n] exceeds [len(s)]. *)
Definition slice_to (s : string) (n : nat) : Outcome string :=
  if (n <=? String.length s)%nat
  then Return (substring 0 n s)
  else Panic "slice bounds out of range".

(** [[]byte(s)], bytes as integers in [0, 255]. *)
Definition bytes_of_string (s : string) : list Z :=
  map (fun c => Z.of_N (N_of_ascii c)) (list_ascii_of_string s).

(** ** Package crypto/subtle

    The functions are instrumented with the list of the outcomes of the
    conditional branches they take, in program order (the control-flow
    leakage of one call). *)

Module subtle.

(** [int((uint32(x^y) - 1) >> 31)], the subtraction wrapping at 32 bits. *)
Definition ConstantTimeByteEq (x y : Z) : Z :=
  Z.shiftr ((Z.lxor x y - 1) mod 2 ^ 32) 31.

(** The loop [for i := 0; i < len(x); i++ { v |= x[i] ^ y[i] }] on
    slices of equal length; each test of the loop condition is one
    branch. *)
Fixpoint compare_loop (x y : list Z) (v : Z) : Z * list bool :=
  match x, y with
  | xi :: x', yi :: y' =>
      let (r, bs) := compare_loop x' y' (Z.lor v (Z.lxor xi yi)) in
      (r, true :: bs)
  | _, _ => (v, [false])
  end.

(** [ConstantTimeCompare(x, y)] with its branch trace. *)
Definition ConstantTimeCompare_traced (x y : list Z) : Z * list bool :=
  if negb (length x =? length y)%nat
  then (0%Z, [true])
  else let (v, bs) := compare_loop x y 0 in
       (ConstantTimeByteEq v 0, false :: bs).

Definition ConstantTimeCompare (x y : list Z) : Z :=
  fst (ConstantTimeCompare_traced x y).

Definition branches (x y : list Z) : list bool :=
  snd (ConstantTimeCompare_traced x y).

End subtle.

(** ** Package net/url

    The gate uses the [String] method of a URL and [Parse] only; [Onionize] uses
    [QueryEscape].  Their implementation is part of the Go standard
    library, so the embedding is stated over this interface. *)

Module neturl.

Class API : Type := {
  URL : Type;
  String : URL -> string;
  Parse : string -> URL + error;
  QueryEscape : string -> string
}.

(** [u.String()] through a pointer: a nil receiver is dereferenced. *)
Definition String_ptr `{API} (u : option URL) : Outcome string :=
  match u with
  | Some u' => Return (String u')
  | None => Panic "invalid memory address or nil pointer dereference"
  end.

(** [fmt] verbs applied to a URL pointer: a nil Stringer prints as [<nil>]. *)
Definition Format `{API} (u : option URL) : string :=
  match u with
  | Some u' => String u'
  | None => "<nil>"
  end.

(** [u, _ := Parse(s)]: the pointer is nil when parsing fails. *)
Definition Parse_ptr `{API} (s : string) : option URL :=
  match Parse s with
  | inl u => Some u
  | inr _ => None
  end.

End neturl.

(** *** A textual instance of the interface

    URLs kept as their text: the scheme split off as [getScheme] does,
    the rest verbatim.  It follows [Parse] on the checks that reject a
    string before any component is decoded (a leading colon, a colon in
    the first segment of a relative path) and does not decode
    authorities, escapes or fragments. *)

Module texturl.

Record URL : Type := mkURL { Scheme : string; Rest : string }.

Definition in_range (lo hi c : ascii) : bool :=
  (nat_of_ascii lo <=? nat_of_ascii c)%nat && (nat_of_ascii c <=? nat_of_ascii hi)%nat.

Definition is_letter (c : ascii) : bool :=
  in_range "a" "z" c || in_range "A" "Z" c.

Definition is_scheme_punct (c : ascii) : bool :=
  in_range "0" "9" c || Ascii.eqb c "+" || Ascii.eqb c "-" || Ascii.eqb c ".".

(** [getScheme(rawURL)]: [seen] is [rawURL[:i]], [s] is [rawURL[i:]]. *)
Fixpoint getScheme_from (rawURL seen s : string) : (string * string) + error :=
  match s with
  | EmptyString => inl (EmptyString, rawURL)
  | String c s' =>
      if is_letter c then getScheme_from rawURL (seen ++ String c EmptyString) s'
      else if is_scheme_punct c then
        match seen with
        | EmptyString => inl (EmptyString, rawURL)
        | _ => getScheme_from rawURL (seen ++ String c EmptyString) s'
        end
      else if Ascii.eqb c ":" then
        match seen with
        | EmptyString => inr "missing protocol scheme"
        | _ => inl (seen, s')
        end
      else inl (EmptyString, rawURL)
  end.

Definition getScheme (rawURL : string) : (string * string) + error :=
  getScheme_from rawURL EmptyString rawURL.

(** The first segment of [s], up to the first [/], contains a colon. *)
Fixpoint first_segment_has_colon (s : string) : bool :=
  match s with
  | EmptyString => false
  | String c s' =>
      if Ascii.eqb c "/" then false
      else if Ascii.eqb c ":" then true
      else first_segment_has_colon s'
  end.

Definition Parse (rawURL : string) : URL + error :=
  match getScheme rawURL with
  | inr e => inr e
  | inl (scheme, rest) =>
      if String.eqb scheme EmptyString
         && negb (strings.HasPrefix rest "/")
         && first_segment_has_colon rest
      then inr "first path segment in URL cannot contain colon"
      else inl (mkURL scheme rest)
  end.

Definition hexdigit (n : nat) : ascii :=
  nth n (list_ascii_of_string "0123456789ABCDEF") "0"%char.

Definition unreserved (c : ascii) : bool :=
  is_letter c || in_range "0" "9" c
  || Ascii.eqb c "-" || Ascii.eqb c "_" || Ascii.eqb c "." || Ascii.eqb c "~".

(** [QueryEscape]: unreserved bytes kept, a space as [+], the others
    as a percent sign and two upper-case hexadecimal digits. *)
Fixpoint QueryEscape (s : string) : string :=
  match s with
  | EmptyString => EmptyString
  | String c s' =>
      if unreserved c then String c (QueryEscape s')
      else if Ascii.eqb c " " then String "+" (QueryEscape s')
      else String "%" (String (hexdigit (nat_of_ascii c / 16))
                         (String (hexdigit (nat_of_ascii c mod 16)) (QueryEscape s')))
  end.

Definition String (u : URL) : string :=
  match Scheme u with
  | EmptyString => Rest u
  | _ => Scheme u ++ ":" ++ Rest u
  end.

#[export] Instance api : neturl.API := {|
  neturl.URL := URL;
  neturl.String := String;
  neturl.Parse := Parse;
  neturl.QueryEscape := QueryEscape
|}.

End texturl.

(** ** Invocation parameters *)

Definition slugLengthB32 : nat := 16.

Record Parameters : Type := mkParameters {
  Path : string;
  Zip : bool;
  Slug : bool;
  ControlPath : string;
  ControlPassword : string;
  Passphrase : string;
  Debug : bool
}.

(** ** The request gate *)

Section Gate.

Context `{NetURL : neturl.API}.

(** The part of [http.Request] the program reads and writes. *)
Record Request : Type := mkRequest { URL : option neturl.URL }.

(** What an [http.ResponseWriter] answers to the [http.Hijacker]
    assertion and to [Hijack()]. *)
Inductive ResponseWriter : Type :=
| PlainWriter
| HijackWriter (hijack_err : option error).

(** Observable actions of the request handler. *)
Inductive HEvent : Type :=
| Log (msg : string)
| ConnClose
| Redirect (location : string) (code : Z)
| FileServe (req : Request).

(** Handler computations: the events so far and how the body ended. *)
Definition H (A : Type) : Type := (list HEvent * Outcome A)%type.

Definition hret {A} (a : A) : H A := ([], Return a).

Definition hbind {A B} (m : H A) (k : A -> H B) : H B :=
  match m with
  | (tr, Return a) => let (tr', r) := k a in (tr ++ tr', r)
  | (tr, Panic msg) => (tr, Panic msg)
  end.

Definition emit (e : HEvent) : H unit := ([e], Return tt).

Definition lift {A} (o : Outcome A) : H A := ([], o).

Definition when (b : bool) (m : H unit) : H unit := if b then m else hret tt.

(** [ResetHTTPConn], lines 42-53: closes the hijacked connection, or
    reports why it could not. *)
Definition ResetHTTPConn (w : ResponseWriter) : H (option error) :=
  match w with
  | PlainWriter => hret (Some "This webserver doesn't support hijacking")
  | HijackWriter (Some err) => hret (Some err)
  | HijackWriter None => hbind (emit ConnClose) (fun _ => hret None)
  end.

(** [CheckAndRewriteSlug], lines 55-69: the request after the call and
    the returned error. *)
Definition CheckAndRewriteSlug (req : Request) (slug : string)
  : Outcome (Request * option error) :=
  if String.eqb slug EmptyString then Return (req, None)
  else
    match neturl.String_ptr (URL req) with
    | Panic msg => Panic msg
    | Return s =>
        let reqURL := strings.TrimLeft s "/" in
        if (String.length reqURL <? String.length slug)%nat
        then Return (req, Some "URL is too short to have a slug in it")
        else
          match slice_to reqURL (String.length slug) with
          | Panic msg => Panic msg
          | Return head =>
              if negb (subtle.ConstantTimeCompare (bytes_of_string slug)
                                                  (bytes_of_string head) =? 1)%Z
              then Return (req, Some "Wrong slug")
              else
                let reqURL' := strings.TrimPrefix reqURL slug in
                Return (mkRequest (neturl.Parse_ptr reqURL'), None)
          end
    end.

(** [CheckAndRewriteSlug] together with the outcomes of the conditional
    branches it takes, in program order, up to and including the test
    of the result of the comparison: the test of line 56, the loop of
    [TrimLeft] at line 59, the test of line 60, the branches of
    [ConstantTimeCompare] and the test of line 63. *)
Definition CheckAndRewriteSlug_traced (req : Request) (slug : string)
  : Outcome ((Request * option error) * list bool) :=
  if String.eqb slug EmptyString then Return ((req, None), [true])
  else
    match neturl.String_ptr (URL req) with
    | Panic msg => Panic msg
    | Return s =>
        let reqURL := strings.TrimLeft s "/" in
        let trimmed := false :: strings.TrimLeft_branches s "/" in
        if (String.length reqURL <? String.length slug)%nat
        then Return ((req, Some "URL is too short to have a slug in it"),
                     trimmed ++ [true])
        else
          match slice_to reqURL (String.length slug) with
          | Panic msg => Panic msg
          | Return head =>
              let (r, compared) :=
                subtle.ConstantTimeCompare_traced (bytes_of_string slug)
                                                  (bytes_of_string head) in
              if negb (r =? 1)%Z
              then Return ((req, Some "Wrong slug"),
                           trimmed ++ false :: compared ++ [true])
              else
                let reqURL' := strings.TrimPrefix reqURL slug in
                Return ((mkRequest (neturl.Parse_ptr reqURL'), None),
                        trimmed ++ false :: compared ++ [false])
          end
    end.

(** A traced outcome without its trace. *)
Definition untraced {A : Type} (o : Outcome (A * list bool)) : Outcome A :=
  match o with
  | Return (a, _) => Return a
  | Panic msg => Panic msg
  end.

Notation "x <- m ;; k" := (hbind m (fun x => k))
  (at level 61, m at next level, right associativity).
Notation "m ;;; k" := (hbind m (fun _ => k))
  (at level 61, right associativity).

(** The handler registered on the mux for the pattern [/], lines
    127-149; [slug] is the variable of [Onionize] the closure
    captures. *)
Definition handler (p : Parameters) (slug : string)
           (w : ResponseWriter) (req : Request) : H unit :=
  when (Debug p)
       (emit (Log ("Request for " ++ dquote ++ neturl.Format (URL req) ++ dquote))) ;;;
  r <- lift (CheckAndRewriteSlug req slug) ;;
  match r with
  | (_, Some err) =>
      when (Debug p) (emit (Log err)) ;;;
      err' <- ResetHTTPConn w ;;
      match err' with
      | Some e => emit (Log ("Unable to reset connection: " ++ e))
      | None => hret tt
      end
  | (req', None) =>
      s <- lift (neturl.String_ptr (URL req')) ;;
      when (String.eqb s EmptyString)
           (emit (Redirect ("/" ++ slug ++ "/") 302)) ;;;
      when (Debug p)
           (emit (Log ("Rewriting URL to " ++ dquote ++ neturl.Format (URL req') ++ dquote))) ;;;
      emit (FileServe req')
  end.

(** The events of a handler run that are not log lines. *)
Definition is_log (e : HEvent) : bool :=
  match e with Log _ => true | _ => false end.

Definition actions (h : H unit) : list HEvent :=
  filter (fun e => negb (is_log e)) (fst h).

End Gate.

(** ** Package onionutil *)

Module onionutil.

Definition alphabet : list ascii :=
  list_ascii_of_string "abcdefghijklmnopqrstuvwxyz234567".

Definition digit (v : Z) : ascii := nth (Z.to_nat v) alphabet "a"%char.

(** The eight 5-bit groups of a 40-bit block, most significant first. *)
Definition quantum (b0 b1 b2 b3 b4 : Z) : list Z :=
  [ Z.shiftr b0 3;
    Z.lor (Z.land (Z.shiftl b0 2) 31) (Z.shiftr b1 6);
    Z.land (Z.shiftr b1 1) 31;
    Z.lor (Z.land (Z.shiftl b1 4) 31) (Z.shiftr b2 4);
    Z.lor (Z.land (Z.shiftl b2 1) 31) (Z.shiftr b3 7);
    Z.land (Z.shiftr b3 2) 31;
    Z.lor (Z.land (Z.shiftl b3 3) 31) (Z.shiftr b4 5);
    Z.land b4 31 ].

Definition block (n : nat) (b0 b1 b2 b3 b4 : Z) (pad : string) : string :=
  string_of_list_ascii (map digit (firstn n (quantum b0 b1 b2 b3 b4))) ++ pad.

(** Modelled from the spec: [onionutil.Base32Encode] is a dependency
    outside the sources; the slug is described as base32 characters
    obtained by encoding random bytes, so this is the RFC 4648
    encoding with padding, 5 bytes to 8 characters, in lower case. *)
Fixpoint Base32Encode (src : list Z) : string :=
  match src with
  | [] => EmptyString
  | [b0] => block 2 b0 0 0 0 0 "======"
  | [b0; b1] => block 4 b0 b1 0 0 0 "===="
  | [b0; b1; b2] => block 5 b0 b1 b2 0 0 "==="
  | [b0; b1; b2; b3] => block 7 b0 b1 b2 b3 0 "="
  | b0 :: b1 :: b2 :: b3 :: b4 :: rest =>
      block 8 b0 b1 b2 b3 b4 EmptyString ++ Base32Encode rest
  end.

(** The identity derivation of the dependency: a keystream reader
    built from a secret and a label, and key generation from a
    reader. *)
Class API : Type := {
  Reader : Type;
  PrivateKey : Type;
  KeystreamReader : list Z -> list Z -> Reader + error;
  GenerateOnionKey : Reader -> PrivateKey + error
}.

End onionutil.

(** An instance for concrete runs: the stream is the label followed by
    the secret, the key its first sixteen bytes; an empty stream is
    refused. *)
Module toykeys.

Definition KeystreamReader (secret label : list Z) : list Z + error :=
  inl (label ++ secret).

Definition GenerateOnionKey (rd : list Z) : list Z + error :=
  match rd with
  | [] => inr "unexpected EOF"
  | _ => inl (firstn 16 rd)
  end.

#[export] Instance api : onionutil.API := {|
  onionutil.Reader := list Z;
  onionutil.PrivateKey := list Z;
  onionutil.KeystreamReader := KeystreamReader;
  onionutil.GenerateOnionKey := GenerateOnionKey
|}.

End toykeys.

(** ** Package path/filepath *)

Module filepath.

(** [Split(path)]: the directory up to and including the last
    separator, and the file name after it. *)
Fixpoint Split (path : string) : string * string :=
  match path with
  | EmptyString => (EmptyString, EmptyString)
  | String c rest =>
      let (dir, file) := Split rest in
      match dir with
      | String _ _ => (String c dir, file)
      | EmptyString =>
          if Ascii.eqb c "/" then ("/", file) else (EmptyString, String c file)
      end
  end.

End filepath.

(** ** Package bulb *)

Module bulb.

(** The fields of [NewOnionConfig] the program sets; the others keep
    their zero values. *)
Record NewOnionConfig `{onionutil.API} : Type := mkNewOnionConfig {
  DiscardPK : bool;
  AwaitForUpload : bool;
  PrivateKey : option onionutil.PrivateKey
}.

Arguments mkNewOnionConfig {_} _ _ _.

End bulb.

(** ** The publication lifecycle *)

Module ResultLink.

Record t : Type := mk { URL : string; Error : option error }.

Definition failure (e : error) : t := mk EmptyString (Some e).
Definition link (u : string) : t := mk u None.

Arguments failure e%_string.

End ResultLink.

(** The virtual file system handed to the file server. *)
Inductive FileSystem : Type :=
| ZipFS (archive : string)
| OSDir (root : string)
| PickFS (dir : string) (names : list (string * string)).

Section Lifecycle.

Context `{NetURL : neturl.API} `{OnionUtil : onionutil.API}.

(** What the operating system, the control port and the network
    answer during one invocation.  [requests] are the calls of the
    handler registered for the pattern [/] that the server makes while
    [Serve] runs, in the order in which they are made: the requests
    the [ServeMux] answers itself (a path that is not clean gets its
    301 from the mux) are not among them.  The server runs each call
    on the goroutine of its connection; the calls share no state, and
    each is recorded as one event. *)
Record World : Type := mkWorld {
  rand_err : option error;
  rand_byte : nat -> ascii;
  zip_OpenReader : string -> option error;
  os_Stat : string -> bool + error;
  filepath_Abs : string -> string + error;
  DialURL : string -> option error;
  Authenticate : string -> option error;
  NewListener : bulb.NewOnionConfig -> Z -> string + error;
  control_events : list (option error);
  requests : list (ResponseWriter * Request);
  Serve_result : option (option error)
}.

(** Observable actions of [Onionize].  [CloseConn] and [CloseListener]
    are the deferred calls of lines 158 and 191. *)
Inductive Event : Type :=
| Send (r : ResultLink.t)
| Dial (control : string)
| SetDebug (on : bool)
| Auth (password : string)
| CreateListener (cfg : bulb.NewOnionConfig) (port : Z)
| CloseConn
| CloseListener
| GoMonitor
| ControlEvent
| Serving
| Handled (w : ResponseWriter) (req : Request) (h : H unit)
| Fatal (msg : string).

(** [slugBin] after [rand.Read]: [(slugLengthB32*5)/8+1] bytes. *)
Definition slugBin (world : World) : list Z :=
  map (fun i => Z.of_N (N_of_ascii (rand_byte world i)))
      (seq 0 ((slugLengthB32 * 5) / 8 + 1)).

(** Lines 80-89: the slug and the start of the published path. *)
Definition make_slug (p : Parameters) (world : World)
  : Outcome (error + string * string) :=
  if Slug p then
    match rand_err world with
    | Some err => Return (inl ("Unable to generate slug: " ++ err)%string)
    | None =>
        match slice_to (onionutil.Base32Encode (slugBin world)) slugLengthB32 with
        | Panic msg => Panic msg
        | Return slug => Return (inr (slug, slug ++ "/")%string)
        end
    end
  else Return (inr (EmptyString, EmptyString)).

(** Lines 91-123: the file system to serve and the published path. *)
Definition resolve (p : Parameters) (world : World) (url : string)
  : error + FileSystem * string :=
  if Zip p then
    match zip_OpenReader world (Path p) with
    | Some err => inl ("Unable to open zip archive: " ++ err)%string
    | None => inr (ZipFS (Path p), url)
    end
  else
    match os_Stat world (Path p) with
    | inr err => inl ("Unable to open path: " ++ err)%string
    | inl true => inr (OSDir (Path p), url)
    | inl false =>
        match filepath_Abs world (Path p) with
        | inr _ => inl "Unable to get absolute path to file"
        | inl abspath =>
            let (dir, file) := filepath.Split abspath in
            let escapedFilename :=
              strings.ReplaceAll (neturl.QueryEscape file) "+" "%20" in
            inr (PickFS dir [(file, file)], (url ++ escapedFilename)%string)
        end
    end.

(** Lines 169-185: the listener configuration, with the key derived
    from the passphrase when there is one. *)
Definition onion_config (p : Parameters) : error + bulb.NewOnionConfig :=
  let aocfg := bulb.mkNewOnionConfig true true None in
  if negb (String.eqb (Passphrase p) EmptyString) then
    match onionutil.KeystreamReader (bytes_of_string (Passphrase p))
                                    (bytes_of_string "onionize-keygen") with
    | inr err => inl ("Unable to create keystream: " ++ err)%string
    | inl keyrd =>
        match onionutil.GenerateOnionKey keyrd with
        | inr err => inl ("Unable to generate onion key: " ++ err)%string
        | inl privOnionKey =>
            inr (bulb.mkNewOnionConfig (bulb.DiscardPK aocfg)
                                       (bulb.AwaitForUpload aocfg)
                                       (Some privOnionKey))
        end
    end
  else inr aocfg.

(** What the code after the listener creation works with. *)
Record Published : Type := mkPublished {
  pub_slug : string;
  pub_url : string;
  pub_fs : FileSystem;
  pub_addr : string
}.

(** Lines 77-191: everything up to the deferred close of the
    listener.  The result is the trace and, unless the function has
    returned, the published listener.  A deferred [c.Close()] runs on
    each return after the dial. *)
Definition setup (p : Parameters) (world : World)
  : list Event * Outcome (option Published) :=
  match make_slug p world with
  | Panic msg => ([], Panic msg)
  | Return (inl err) => ([Send (ResultLink.failure err)], Return None)
  | Return (inr (slug, url0)) =>
  match resolve p world url0 with
  | inl err => ([Send (ResultLink.failure err)], Return None)
  | inr (fs, url) =>
  match DialURL world (ControlPath p) with
  | Some err =>
      ([Dial (ControlPath p);
        Send (ResultLink.failure ("Failed to connect to control socket: " ++ err))],
       Return None)
  | None =>
  let connected := [Dial (ControlPath p); SetDebug (Debug p)] in
  match Authenticate world (ControlPassword p) with
  | Some err =>
      (connected ++
       [Auth (ControlPassword p);
        Send (ResultLink.failure ("Authentication failed: " ++ err));
        CloseConn],
       Return None)
  | None =>
  let authenticated := connected ++ [Auth (ControlPassword p)] in
  match onion_config p with
  | inl err =>
      (authenticated ++ [Send (ResultLink.failure err); CloseConn], Return None)
  | inr aocfg =>
  match NewListener world aocfg 80 with
  | inr err =>
      (authenticated ++
       [CreateListener aocfg 80;
        Send (ResultLink.failure
                ("Error occured while creating an onion service: " ++ err));
        CloseConn],
       Return None)
  | inl addr =>
      (authenticated ++ [CreateListener aocfg 80],
       Return (Some (mkPublished slug url fs addr)))
  end end end end end end.

(** *** After the listener: the main flow and the monitor goroutine *)

Inductive Tid : Type := MainFlow | Monitor.

(** Where the main flow stands. *)
Inductive MainPC : Type :=
| AtSend
| AtServe
| InServe (pending : list (ResponseWriter * Request))
| Returned
| Panicked.

Record Proc : Type := mkProc {
  pc : MainPC;
  control : list (option error);
  trace : list Event;
  exited : bool
}.

Definition record (es : list Event) (st : Proc) : Proc :=
  mkProc (pc st) (control st) (trace st ++ es) (exited st).

Definition goto (l : MainPC) (st : Proc) : Proc :=
  mkProc l (control st) (trace st) (exited st).

(** [log.Fatalf]: the message is logged and the process exits with
    [os.Exit(1)]; deferred calls do not run. *)
Definition fatal (msg : string) (st : Proc) : Proc :=
  mkProc (pc st) (control st) (trace st ++ [Fatal msg]) true.

(** One step of the main flow, lines 201-209: the send, the entry into
    [Serve], one call of the handler, or the return of [Serve]. *)
Definition step_main (p : Parameters) (world : World) (pub : Published)
           (st : Proc) : Proc :=
  match pc st with
  | AtSend =>
      let onionHost := strings.TrimSuffix (pub_addr pub) ":80" in
      goto AtServe
           (record [Send (ResultLink.link ("http://" ++ onionHost ++ "/" ++ pub_url pub))] st)
  | AtServe => goto (InServe (requests world)) (record [Serving] st)
  | InServe ((w, req) :: pending) =>
      goto (InServe pending)
           (record [Handled w req (handler p (pub_slug pub) w req)] st)
  | InServe [] =>
      match Serve_result world with
      | None => st
      | Some (Some _) => fatal "Cannot serve HTTP" st
      | Some None => goto Returned (record [CloseListener; CloseConn] st)
      end
  | Returned => st
  | Panicked => st
  end.

(** One iteration of the monitor loop, lines 194-199; with no event
    left to deliver, [c.NextEvent()] blocks. *)
Definition step_monitor (st : Proc) : Proc :=
  match control st with
  | [] => st
  | None :: rest => mkProc (pc st) rest (trace st ++ [ControlEvent]) (exited st)
  | Some err :: rest =>
      fatal ("Lost connection to tor: " ++ err)%string (mkProc (pc st) rest (trace st) (exited st))
  end.

Definition step (p : Parameters) (world : World) (pub : Published)
           (t : Tid) (st : Proc) : Proc :=
  if exited st then st
  else match t with
       | MainFlow => step_main p world pub st
       | Monitor => step_monitor st
       end.

Definition run (p : Parameters) (world : World) (pub : Published)
           (sched : list Tid) (st : Proc) : Proc :=
  fold_left (fun st t => step p world pub t st) sched st.

(** [Onionize(p, linkCh)] under the scheduling [sched] of the two
    flows that exist once the monitor has been started. *)
Definition Onionize (p : Parameters) (world : World) (sched : list Tid) : Proc :=
  match setup p world with
  | (tr, Panic _) => mkProc Panicked [] tr false
  | (tr, Return None) => mkProc Returned [] tr false
  | (tr, Return (Some pub)) =>
      run p world pub sched
          (mkProc AtSend (control_events world) (tr ++ [GoMonitor]) false)
  end.

Definition is_send (e : Event) : bool :=
  match e with Send _ => true | _ => false end.

Definition sends (tr : list Event) : nat := length (filter is_send tr).

End Lifecycle.

(** ** Vocabulary of the statements *)

Definition is_byte (b : Z) : Prop := (0 <= b < 256)%Z.

Section Vocabulary.

Context `{NetURL : neturl.API} `{OnionUtil : onionutil.API}.

Definition is_listener (e : Event) : bool :=
  match e with CreateListener _ _ => true | _ => false end.

Definition is_serving (e : Event) : bool :=
  match e with Serving => true | _ => false end.

Definition is_close (e : Event) : bool :=
  match e with CloseConn | CloseListener => true | _ => false end.

(** The event [e] may follow the events [pre]: a result is the first
    one sent, and a successful one follows the creation of the
    listener; serving starts after the one result; a request is
    handled while serving. *)
Definition event_ok (pre : list Event) (e : Event) : bool :=
  match e with
  | Send r =>
      (sends pre =? 0)%nat
      && match ResultLink.Error r with
         | None => existsb is_listener pre
         | Some _ => true
         end
  | Serving => (sends pre =? 1)%nat
  | Handled _ _ _ => existsb is_serving pre && (sends pre =? 1)%nat
  | _ => true
  end.

Fixpoint ordered_from (pre tr : list Event) : bool :=
  match tr with
  | [] => true
  | e :: tr' => event_ok pre e && ordered_from (pre ++ [e]) tr'
  end.

Definition ordered (tr : list Event) : bool := ordered_from [] tr.

(** The trace of a successful setup. *)
Definition listening (p : Parameters) (cfg : bulb.NewOnionConfig) : list Event :=
  [Dial (ControlPath p); SetDebug (Debug p); Auth (ControlPassword p);
   CreateListener cfg 80].

(** The link sent for a published listener. *)
Definition published_link (pub : Published) : ResultLink.t :=
  ResultLink.link
    ("http://" ++ strings.TrimSuffix (pub_addr pub) ":80" ++ "/" ++ pub_url pub).

(** The events that occur once the monitor runs. *)
Definition later_event (p : Parameters) (world : World) (pub : Published)
           (e : Event) : Prop :=
  match e with
  | Send r => r = published_link pub
  | Handled w req h => h = handler p (pub_slug pub) w req
  | CloseConn | CloseListener => Serve_result world = Some None
  | ControlEvent | Serving | Fatal _ => True
  | _ => False
  end.

Definition pc_ok (l : MainPC) (tr : list Event) : Prop :=
  match l with
  | AtSend => sends tr = 0%nat
  | AtServe => sends tr = 1%nat
  | InServe _ => sends tr = 1%nat /\ existsb is_serving tr = true
  | Returned => sends tr = 1%nat
  | Panicked => False
  end.

(** The state [st] is consistent with a run that started from the
    trace [base]. *)
Definition consistent (p : Parameters) (world : World) (pub : Published)
           (base : list Event) (st : Proc) : Prop :=
  (exists extra, trace st = base ++ extra /\ Forall (later_event p world pub) extra)
  /\ ordered (trace st) = true
  /\ pc_ok (pc st) (trace st)
  /\ (exited st = true -> exists pre msg, trace st = pre ++ [Fatal msg]).

(** The trace of a setup that returned early. *)
Definition failed_setup (p : Parameters) (tr : list Event) : Prop :=
  ordered tr = true
  /\ sends tr = 1%nat
  /\ (forall r, In (Send r) tr -> ResultLink.Error r <> None)
  /\ (forall cfg port, In (CreateListener cfg port) tr ->
      onion_config p = inr cfg /\ port = 80%Z)
  /\ (forall w req h, ~ In (Handled w req h) tr).

End Vocabulary.

(** ** Outcomes of the setup *)

Section Outcomes.

Context `{NetURL : neturl.API} `{OnionUtil : onionutil.API}.

(** The traces of the early returns of [Onionize], one per [return]
    statement of lines 77-190 (the three of the content resolution
    share a constructor). *)
Inductive setup_failure (p : Parameters) (world : World) : list Event -> Prop :=
| fail_slug (err : error) :
    make_slug p world = Return (inl err) ->
    setup_failure p world [Send (ResultLink.failure err)]
| fail_resolve (slug url0 : string) (err : error) :
    make_slug p world = Return (inr (slug, url0)) ->
    resolve p world url0 = inl err ->
    setup_failure p world [Send (ResultLink.failure err)]
| fail_dial (slug url0 url : string) (fs : FileSystem) (err : error) :
    make_slug p world = Return (inr (slug, url0)) ->
    resolve p world url0 = inr (fs, url) ->
    DialURL world (ControlPath p) = Some err ->
    setup_failure p world
      [Dial (ControlPath p);
       Send (ResultLink.failure ("Failed to connect to control socket: " ++ err))]
| fail_auth (slug url0 url : string) (fs : FileSystem) (err : error) :
    make_slug p world = Return (inr (slug, url0)) ->
    resolve p world url0 = inr (fs, url) ->
    DialURL world (ControlPath p) = None ->
    Authenticate world (ControlPassword p) = Some err ->
    setup_failure p world
      [Dial (ControlPath p); SetDebug (Debug p); Auth (ControlPassword p);
       Send (ResultLink.failure ("Authentication failed: " ++ err));
       CloseConn]
| fail_key (slug url0 url : string) (fs : FileSystem) (err : error) :
    make_slug p world = Return (inr (slug, url0)) ->
    resolve p world url0 = inr (fs, url) ->
    DialURL world (ControlPath p) = None ->
    Authenticate world (ControlPassword p) = None ->
    onion_config p = inl err ->
    setup_failure p world
      [Dial (ControlPath p); SetDebug (Debug p); Auth (ControlPassword p);
       Send (ResultLink.failure err);
       CloseConn]
| fail_listener (slug url0 url : string) (fs : FileSystem)
                (cfg : bulb.NewOnionConfig) (err : error) :
    make_slug p world = Return (inr (slug, url0)) ->
    resolve p world url0 = inr (fs, url) ->
    DialURL world (ControlPath p) = None ->
    Authenticate world (ControlPassword p) = None ->
    onion_config p = inr cfg ->
    NewListener world cfg 80 = inr err ->
    setup_failure p world
      [Dial (ControlPath p); SetDebug (Debug p); Auth (ControlPassword p);
       CreateListener cfg 80;
       Send (ResultLink.failure
               ("Error occured while creating an onion service: " ++ err));
       CloseConn].

(** What has happened when [Onionize] reaches line 191 with the
    listener [pub], created with the configuration [cfg]. *)
Definition setup_success (p : Parameters) (world : World) (pub : Published)
           (cfg : bulb.NewOnionConfig) : Prop :=
  exists url0,
    make_slug p world = Return (inr (pub_slug pub, url0))
    /\ resolve p world url0 = inr (pub_fs pub, pub_url pub)
    /\ DialURL world (ControlPath p) = None
    /\ Authenticate world (ControlPassword p) = None
    /\ onion_config p = inr cfg
    /\ NewListener world cfg 80 = inl (pub_addr pub).

(** The process when the monitor has just been started. *)
Definition started (p : Parameters) (world : World) (cfg : bulb.NewOnionConfig)
  : Proc :=
  mkProc AtSend (control_events world) (listening p cfg ++ [GoMonitor]) false.

End Outcomes.

(** Every character of [s] is a digit of the base32 alphabet. *)
Fixpoint base32_string (s : string) : Prop :=
  match s with
  | EmptyString => True
  | String c s' => In c onionutil.alphabet /\ base32_string s'
  end.

(** ** Concrete invocations

    Parameters, worlds and requests on which the definitions above are
    evaluated, over the textual URLs and the toy key derivation. *)

Module Sample.

Definition request (target : string) : @Request texturl.api :=
  @mkRequest texturl.api (Some (texturl.mkURL EmptyString target)).

Definition with_slug : Parameters :=
  mkParameters "/srv/www" false true "unix:///var/run/tor/control" "hunter2"
               EmptyString false.

Definition without_slug : Parameters :=
  mkParameters "/srv/www" false false "unix:///var/run/tor/control" "hunter2"
               EmptyString false.

(** A provider whose address is determined by the key it is given. *)
Definition provider (cfg : @bulb.NewOnionConfig toykeys.api) (port : Z)
  : string + error :=
  match bulb.PrivateKey cfg with
  | Some key => inl (onionutil.Base32Encode (firstn 10 key) ++ ".onion:80")%string
  | None => inl "exampleonionaddr.onion:80"
  end.

(** Everything succeeds; the control port stays quiet and [Serve]
    does not return. *)
Definition world (rand : nat -> ascii) (events : list (option error))
           (reqs : list (ResponseWriter * Request))
           (served : option (option error)) : @World texturl.api toykeys.api :=
  mkWorld None rand (fun _ => None) (fun _ => inl true) (fun path => inl path)
          (fun _ => None) (fun _ => None) provider events reqs served.

Definition quiet : World := world (fun _ => "a"%char) [] [] None.

(** The slug drawn in [quiet]. *)
Definition slug : string := "mfqwcylbmfqwcylb".

(** The requests [reqs] arrive once [Serve] runs. *)
Definition serving (reqs : list (ResponseWriter * Request)) : World :=
  world (fun _ => "a"%char) [] reqs None.

Definition ephemeral_config : @bulb.NewOnionConfig toykeys.api :=
  @bulb.mkNewOnionConfig toykeys.api true true None.


(** [Serve] returns an error once no request is pending. *)
Definition serve_fails : World :=
  world (fun _ => "a"%char) [] [] (Some (Some "use of closed network connection")).

End Sample.

(** Further invocations: a refused password, a single file, a service
    that runs without incident. *)
Module Scenario.

Definition auth_fails : @World texturl.api toykeys.api :=
  mkWorld None (fun _ => "a"%char) (fun _ => None) (fun _ => inl true)
          (fun path => inl path) (fun _ => None)
          (fun _ => Some "bad password") Sample.provider [] [] None.

Definition auth_failure : ResultLink.t :=
  ResultLink.failure "Authentication failed: bad password".

Definition one_file : Parameters :=
  mkParameters "report one.pdf" false false "unix:///var/run/tor/control"
               "hunter2" EmptyString false.

Definition file_world : @World texturl.api toykeys.api :=
  mkWorld None (fun _ => "a"%char) (fun _ => None) (fun _ => inl false)
          (fun path => inl ("/tmp/" ++ path)%string) (fun _ => None)
          (fun _ => None) Sample.provider [] [] None.

Definition healthy : @World texturl.api toykeys.api :=
  Sample.world (fun _ => "a"%char) [None; None]
               [(HijackWriter None, Sample.request "/mfqwcylbmfqwcylb/index.html");
                (PlainWriter, Sample.request "/favicon.ico")]
               None.

Definition published : ResultLink.t :=
  ResultLink.link "http://exampleonionaddr.onion/mfqwcylbmfqwcylb/".

End Scenario.

(** * Properties *)

(** ** Strings *)

Lemma HasPrefix_length (s prefix : string) :
  strings.HasPrefix s prefix = true -> (String.length prefix <= String.length s)%nat.
Proof.
  revert s; induction prefix as [|p prefix IH]; intros [|c s]; simpl; try lia; try discriminate.
  intros Hp; apply andb_prop in Hp; destruct Hp as [_ Hp]; apply IH in Hp; lia.
Qed.

Lemma HasPrefix_append (prefix s : string) :
  strings.HasPrefix (prefix ++ s)%string prefix = true.
Proof.
  induction prefix as [|p prefix IH]; simpl; [reflexivity|].
  now rewrite Ascii.eqb_refl, IH.
Qed.

Lemma drop_append (s1 s2 : string) :
  strings.drop (String.length s1) (s1 ++ s2)%string = s2.
Proof. induction s1; simpl; auto. Qed.

Lemma HasPrefix_split (s prefix : string) :
  strings.HasPrefix s prefix = true ->
  s = (prefix ++ strings.drop (String.length prefix) s)%string.
Proof.
  revert s; induction prefix as [|p prefix IH]; intros [|c s]; simpl;
    try reflexivity; try discriminate.
  intros Hp; apply andb_prop in Hp; destruct Hp as [Hc Hp].
  apply Ascii.eqb_eq in Hc; subst; f_equal; auto.
Qed.

Lemma HasPrefix_substring (s prefix : string) :
  strings.HasPrefix s prefix = true <->
  (String.length prefix <= String.length s)%nat /\
  substring 0 (String.length prefix) s = prefix.
Proof.
  revert s; induction prefix as [|p prefix IH]; intros [|c s]; simpl.
  - split; [intros _; split; [lia | reflexivity] | reflexivity].
  - split; [intros _; split; [lia | reflexivity] | reflexivity].
  - split; [discriminate | intros [Hl _]; lia].
  - rewrite andb_true_iff, IH, Ascii.eqb_eq. split.
    + intros [-> [Hl ->]]; split; [lia | reflexivity].
    + intros [Hl E]; injection E as -> E. repeat split; auto; lia.
Qed.

Lemma TrimLeft_slashes (n : nat) (s : string) :
  strings.HasPrefix s "/" = false ->
  strings.TrimLeft (strings.Repeat "/" n ++ s)%string "/" = s.
Proof.
  intros Hs; induction n as [|n IH]; simpl.
  - destruct s as [|c s]; simpl in *; [reflexivity|].
    rewrite andb_true_r in Hs. now rewrite Hs.
  - exact IH.
Qed.

Lemma TrimLeft_no_slash (s : string) :
  strings.HasPrefix (strings.TrimLeft s "/") "/" = false.
Proof.
  induction s as [|c s IH]; simpl; [reflexivity|].
  destruct (Ascii.eqb c "/") eqn:Hc; [exact IH|].
  simpl. now rewrite Hc.
Qed.

Lemma TrimLeft_branches_slashes (n : nat) (s : string) :
  strings.HasPrefix s "/" = false ->
  strings.TrimLeft_branches (strings.Repeat "/" n ++ s)%string "/"
  = repeat true n ++ [false].
Proof.
  intros Hs; induction n as [|n IH]; simpl.
  - destruct s as [|c s]; simpl in *; [reflexivity|].
    rewrite andb_true_r in Hs. now rewrite Hs.
  - now rewrite IH.
Qed.

Lemma list_ascii_of_string_inj (s1 s2 : string) :
  list_ascii_of_string s1 = list_ascii_of_string s2 -> s1 = s2.
Proof.
  intros E. rewrite <- (string_of_list_ascii_of_string s1),
              <- (string_of_list_ascii_of_string s2), E. reflexivity.
Qed.

(** ** Bytes and the constant-time comparison *)

Lemma is_byte_log2 (b : Z) : is_byte b <-> (0 <= b /\ Z.log2 b < 8)%Z.
Proof.
  unfold is_byte; split; intros [H0 H1]; split; try assumption.
  - destruct (Z.eq_dec b 0) as [->|]; [reflexivity|].
    apply Z.log2_lt_pow2; lia.
  - destruct (Z.eq_dec b 0) as [->|]; [lia|].
    change 256%Z with (2 ^ 8)%Z. apply Z.log2_lt_pow2; lia.
Qed.

Lemma is_byte_lor (a b : Z) : is_byte a -> is_byte b -> is_byte (Z.lor a b).
Proof.
  rewrite !is_byte_log2; intros [Ha La] [Hb Lb]; split.
  - apply Z.lor_nonneg; auto.
  - rewrite Z.log2_lor by assumption. lia.
Qed.

Lemma is_byte_lxor (a b : Z) : is_byte a -> is_byte b -> is_byte (Z.lxor a b).
Proof.
  rewrite !is_byte_log2; intros [Ha La] [Hb Lb]; split.
  - apply Z.lxor_nonneg; tauto.
  - pose proof (Z.log2_lxor a b Ha Hb). lia.
Qed.

Lemma bytes_of_string_bytes (s : string) : Forall is_byte (bytes_of_string s).
Proof.
  unfold bytes_of_string; apply Forall_forall; intros b Hb.
  apply in_map_iff in Hb; destruct Hb as [c [<- _]].
  pose proof (N_ascii_bounded c). unfold is_byte; lia.
Qed.

Lemma bytes_of_string_length (s : string) :
  length (bytes_of_string s) = String.length s.
Proof.
  unfold bytes_of_string; rewrite length_map.
  induction s; simpl; auto.
Qed.

Lemma bytes_of_string_inj (s1 s2 : string) :
  bytes_of_string s1 = bytes_of_string s2 -> s1 = s2.
Proof.
  intros E; apply list_ascii_of_string_inj.
  revert E; unfold bytes_of_string.
  generalize (list_ascii_of_string s1) (list_ascii_of_string s2).
  induction l as [|c l IH]; intros [|d l']; simpl; try discriminate; auto.
  intros E; injection E as E1 E2.
  apply N2Z.inj in E1.
  f_equal; [|auto].
  rewrite <- (ascii_N_embedding c), <- (ascii_N_embedding d), E1; reflexivity.
Qed.

Lemma ConstantTimeByteEq_zero (v : Z) :
  is_byte v -> (subtle.ConstantTimeByteEq v 0 = 1 <-> v = 0)%Z.
Proof.
  unfold is_byte, subtle.ConstantTimeByteEq; intros Hv.
  rewrite Z.lxor_0_r, Z.shiftr_div_pow2 by lia.
  destruct (Z.eq_dec v 0) as [->|Hn].
  - split; [reflexivity|intros _; reflexivity].
  - split; [|contradiction].
    rewrite Z.mod_small by lia.
    rewrite Z.div_small by lia. discriminate.
Qed.

Lemma compare_loop_value (x : list Z) : forall (y : list Z) (v : Z),
  length x = length y -> Forall is_byte x -> Forall is_byte y -> is_byte v ->
  is_byte (fst (subtle.compare_loop x y v)) /\
  (fst (subtle.compare_loop x y v) = 0%Z <-> v = 0%Z /\ x = y).
Proof.
  induction x as [|xi x IH]; intros [|yi y] v Hl Hx Hy Hv; simpl in *; try discriminate.
  - split; [assumption|]. split; [intros ->; auto | tauto].
  - inversion Hx; inversion Hy; subst.
    assert (Hacc : is_byte (Z.lor v (Z.lxor xi yi)))
      by (apply is_byte_lor; [assumption | apply is_byte_lxor; assumption]).
    specialize (IH y (Z.lor v (Z.lxor xi yi)) ltac:(lia) ltac:(assumption)
                   ltac:(assumption) Hacc).
    destruct (subtle.compare_loop x y (Z.lor v (Z.lxor xi yi))) as [r bs]; simpl in *.
    destruct IH as [IHb IHz]; split; [assumption|].
    rewrite IHz, Z.lor_eq_0_iff. split.
    + intros [[Hv0 Hxor] ->]. apply Z.lxor_eq in Hxor. subst; auto.
    + intros [Hv0 E]; injection E as -> ->. rewrite Z.lxor_nilpotent. auto.
Qed.

Lemma compare_loop_branches (x : list Z) : forall (y : list Z) (v : Z),
  length x = length y ->
  snd (subtle.compare_loop x y v) = repeat true (length x) ++ [false].
Proof.
  induction x as [|xi x IH]; intros [|yi y] v Hl; simpl in *; try discriminate; auto.
  specialize (IH y (Z.lor v (Z.lxor xi yi)) ltac:(lia)).
  destruct (subtle.compare_loop x y (Z.lor v (Z.lxor xi yi))); simpl in *.
  now rewrite IH.
Qed.

Lemma ConstantTimeCompare_eq (x y : list Z) :
  Forall is_byte x -> Forall is_byte y ->
  (subtle.ConstantTimeCompare x y = 1%Z <-> x = y).
Proof.
  intros Hx Hy. unfold subtle.ConstantTimeCompare, subtle.ConstantTimeCompare_traced.
  destruct (Nat.eqb_spec (length x) (length y)) as [Hl|Hl]; simpl.
  - assert (H0 : is_byte 0) by (unfold is_byte; lia).
    pose proof (compare_loop_value x y 0%Z Hl Hx Hy H0) as [Hb Hz].
    destruct (subtle.compare_loop x y 0) as [v bs]; simpl in *.
    rewrite ConstantTimeByteEq_zero by assumption.
    rewrite Hz; tauto.
  - split; [discriminate | intros ->; contradiction].
Qed.

Lemma branches_same_length (x y : list Z) :
  length x = length y ->
  subtle.branches x y = false :: repeat true (length x) ++ [false].
Proof.
  intros Hl. unfold subtle.branches, subtle.ConstantTimeCompare_traced.
  rewrite (proj2 (Nat.eqb_eq _ _) Hl); simpl.
  pose proof (compare_loop_branches x y 0%Z Hl) as Hb.
  destruct (subtle.compare_loop x y 0); simpl in *. now rewrite Hb.
Qed.

(** ** The gate *)

Section GateProperties.

Context `{NetURL : neturl.API}.

Lemma eqb_empty_false (slug : string) :
  slug <> EmptyString -> String.eqb slug EmptyString = false.
Proof. intros Hs; apply String.eqb_neq; exact Hs. Qed.

(** The comparison of the gate accepts exactly the strings that start
    with the slug. *)
Lemma slug_compare (slug t : string) :
  (String.length slug <= String.length t)%nat ->
  (subtle.ConstantTimeCompare
     (bytes_of_string slug)
     (bytes_of_string (substring 0 (String.length slug) t)) =? 1)%Z
  = strings.HasPrefix t slug.
Proof.
  intros Hl.
  destruct (strings.HasPrefix t slug) eqn:Hp.
  - apply HasPrefix_substring in Hp; destruct Hp as [_ ->].
    apply Z.eqb_eq, ConstantTimeCompare_eq; auto using bytes_of_string_bytes.
  - apply Z.eqb_neq; intros E.
    apply ConstantTimeCompare_eq in E; auto using bytes_of_string_bytes.
    apply bytes_of_string_inj in E.
    assert (strings.HasPrefix t slug = true)
      by (apply HasPrefix_substring; split; auto).
    congruence.
Qed.

Lemma CheckAndRewriteSlug_disabled (req : Request) :
  CheckAndRewriteSlug req EmptyString = Return (req, None).
Proof. reflexivity. Qed.

Lemma CheckAndRewriteSlug_match (req : Request) (slug : string) (u : neturl.URL) :
  slug <> EmptyString -> URL req = Some u ->
  strings.HasPrefix (strings.TrimLeft (neturl.String u) "/") slug = true ->
  CheckAndRewriteSlug req slug =
  Return (mkRequest
            (neturl.Parse_ptr
               (strings.drop (String.length slug)
                             (strings.TrimLeft (neturl.String u) "/"))),
          None).
Proof.
  intros Hs Hu Hp. unfold CheckAndRewriteSlug.
  rewrite (eqb_empty_false _ Hs), Hu; simpl.
  pose proof (HasPrefix_length _ _ Hp) as Hl.
  destruct (Nat.ltb_spec (String.length (strings.TrimLeft (neturl.String u) "/"))
                         (String.length slug)) as [Hlt|_]; [lia|].
  unfold slice_to. rewrite (proj2 (Nat.leb_le _ _) Hl).
  rewrite (slug_compare _ _ Hl), Hp; simpl.
  unfold strings.TrimPrefix. now rewrite Hp.
Qed.

Lemma CheckAndRewriteSlug_mismatch (req : Request) (slug : string) (u : neturl.URL) :
  slug <> EmptyString -> URL req = Some u ->
  strings.HasPrefix (strings.TrimLeft (neturl.String u) "/") slug = false ->
  exists err, CheckAndRewriteSlug req slug = Return (req, Some err).
Proof.
  intros Hs Hu Hp. unfold CheckAndRewriteSlug.
  rewrite (eqb_empty_false _ Hs), Hu; simpl.
  destruct (Nat.ltb_spec (String.length (strings.TrimLeft (neturl.String u) "/"))
                         (String.length slug)) as [Hlt|Hl]; [eauto|].
  unfold slice_to. rewrite (proj2 (Nat.leb_le _ _) Hl).
  rewrite (slug_compare _ _ Hl), Hp; simpl. eauto.
Qed.

(** The traced gate returns what the gate returns. *)
Lemma CheckAndRewriteSlug_traced_result (req : Request) (slug : string) :
  untraced (CheckAndRewriteSlug_traced req slug) = CheckAndRewriteSlug req slug.
Proof.
  unfold CheckAndRewriteSlug_traced, CheckAndRewriteSlug, untraced.
  destruct (String.eqb slug EmptyString); [reflexivity|].
  destruct (neturl.String_ptr (URL req)) as [s|msg]; [|reflexivity].
  destruct (String.length (strings.TrimLeft s "/") <? String.length slug)%nat;
    [reflexivity|].
  destruct (slice_to (strings.TrimLeft s "/") (String.length slug)) as [head|msg];
    [|reflexivity].
  unfold subtle.ConstantTimeCompare.
  destruct (subtle.ConstantTimeCompare_traced (bytes_of_string slug)
                                               (bytes_of_string head)) as [r compared].
  simpl. destruct (negb (r =? 1)%Z); reflexivity.
Qed.

(** The branches of the gate on a request that is long enough to hold
    the slug and does not start with it. *)
Lemma CheckAndRewriteSlug_traced_mismatch (req : Request) (slug : string)
      (u : neturl.URL) (n : nat) (t : string) :
  slug <> EmptyString -> URL req = Some u ->
  neturl.String u = (strings.Repeat "/" n ++ t)%string ->
  strings.HasPrefix t "/" = false ->
  (String.length slug <= String.length t)%nat ->
  strings.HasPrefix t slug = false ->
  CheckAndRewriteSlug_traced req slug =
  Return ((req, Some "Wrong slug"),
          (false :: repeat true n ++ [false])
          ++ false :: (false :: repeat true (String.length slug) ++ [false])
          ++ [true]).
Proof.
  intros Hne Hu Hstr Hsep Hl Hp. unfold CheckAndRewriteSlug_traced.
  rewrite (eqb_empty_false _ Hne), Hu. cbn [neturl.String_ptr].
  rewrite Hstr, (TrimLeft_slashes n t Hsep), (TrimLeft_branches_slashes n t Hsep).
  destruct (Nat.ltb_spec (String.length t) (String.length slug)) as [Hlt|_]; [lia|].
  unfold slice_to. rewrite (proj2 (Nat.leb_le _ _) Hl).
  pose proof (slug_compare slug t Hl) as Hcmp. rewrite Hp in Hcmp.
  assert (Hlen : length (bytes_of_string slug)
                 = length (bytes_of_string (substring 0 (String.length slug) t))).
  { rewrite !bytes_of_string_length.
    clear - Hl. revert t Hl.
    induction (String.length slug) as [|k IH]; intros [|c t] Hl; simpl in *;
      try lia; auto. f_equal. apply IH. lia. }
  pose proof (branches_same_length _ _ Hlen) as Hb.
  unfold subtle.ConstantTimeCompare in Hcmp. unfold subtle.branches in Hb.
  destruct (subtle.ConstantTimeCompare_traced
              (bytes_of_string slug)
              (bytes_of_string (substring 0 (String.length slug) t)))
    as [r compared].
  cbn [fst snd] in Hcmp, Hb. rewrite Hcmp, Hb, bytes_of_string_length.
  reflexivity.
Qed.

(** A rejected request: the connection is closed when it can be
    hijacked, and nothing else is done with it. *)
Lemma handler_rejects (p : Parameters) (slug : string) (w : ResponseWriter)
      (req : Request) (err : error) :
  CheckAndRewriteSlug req slug = Return (req, Some err) ->
  snd (handler p slug w req) = Return tt /\
  actions (handler p slug w req) =
  match w with HijackWriter None => [ConnClose] | _ => [] end.
Proof.
  intros Hc. unfold handler, actions, lift, when, hbind.
  rewrite Hc.
  destruct (Debug p); destruct w as [|[e|]]; simpl; auto.
Qed.

(** An accepted request whose rewritten URL is not nil. *)
Lemma handler_accepts (p : Parameters) (slug : string) (w : ResponseWriter)
      (req req' : Request) (u' : neturl.URL) :
  CheckAndRewriteSlug req slug = Return (req', None) ->
  URL req' = Some u' ->
  snd (handler p slug w req) = Return tt /\
  actions (handler p slug w req) =
  if String.eqb (neturl.String u') EmptyString
  then [Redirect ("/" ++ slug ++ "/") 302; FileServe req']
  else [FileServe req'].
Proof.
  intros Hc Hu. unfold handler, actions, lift, when, hbind.
  rewrite Hc, Hu; simpl.
  destruct (Debug p); destruct (String.eqb (neturl.String u') EmptyString); simpl; auto.
Qed.

(** An accepted request whose rewritten URL is nil. *)
Lemma handler_nil_url (p : Parameters) (slug : string) (w : ResponseWriter)
      (req req' : Request) :
  CheckAndRewriteSlug req slug = Return (req', None) ->
  URL req' = None ->
  snd (handler p slug w req) =
    Panic "invalid memory address or nil pointer dereference" /\
  actions (handler p slug w req) = [].
Proof.
  intros Hc Hu. unfold handler, actions, lift, when, hbind.
  rewrite Hc, Hu; simpl.
  destruct (Debug p); simpl; auto.
Qed.

End GateProperties.

(** ** The lifecycle *)

Section LifecycleProperties.

Context `{NetURL : neturl.API} `{OnionUtil : onionutil.API}.

Lemma sends_app (a b : list Event) : sends (a ++ b) = (sends a + sends b)%nat.
Proof. unfold sends. now rewrite filter_app, length_app. Qed.

Lemma ordered_from_app (a : list Event) : forall (pre b : list Event),
  ordered_from pre (a ++ b) = ordered_from pre a && ordered_from (pre ++ a) b.
Proof.
  induction a as [|e a IH]; intros pre b; simpl.
  - now rewrite app_nil_r.
  - rewrite IH, <- app_assoc. simpl. now rewrite andb_assoc.
Qed.

Lemma ordered_snoc (tr : list Event) (e : Event) :
  ordered (tr ++ [e]) = ordered tr && event_ok tr e.
Proof. unfold ordered. rewrite ordered_from_app. simpl. now rewrite andb_true_r. Qed.


Lemma existsb_app_l {A} (f : A -> bool) (a b : list A) :
  existsb f a = true -> existsb f (a ++ b) = true.
Proof. intros Ha. rewrite existsb_app, Ha. reflexivity. Qed.

Lemma substring_length (n : nat) : forall s : string,
  (n <= String.length s)%nat -> String.length (substring 0 n s) = n.
Proof.
  induction n as [|n IH]; intros [|c s] Hl; simpl in *; try lia; auto.
  f_equal. apply IH. lia.
Qed.

Lemma slug_encoding_length (world : World) :
  String.length (onionutil.Base32Encode (slugBin world)) = 24%nat.
Proof. reflexivity. Qed.

(** With slug mode enabled the slug has sixteen bytes; otherwise it
    is empty.  The slice of the encoding does not panic. *)
Lemma make_slug_cases (p : Parameters) (world : World) :
  (exists err, make_slug p world = Return (inl err) /\ Slug p = true)
  \/ (exists slug, make_slug p world = Return (inr (slug, (slug ++ "/")%string))
                   /\ Slug p = true /\ String.length slug = slugLengthB32)
  \/ (make_slug p world = Return (inr (EmptyString, EmptyString)) /\ Slug p = false).
Proof.
  unfold make_slug. destruct (Slug p); [|auto].
  destruct (rand_err world) as [err|]; [left; eauto|].
  right; left. unfold slice_to.
  rewrite slug_encoding_length.
  change (slugLengthB32 <=? 24)%nat with true. cbv iota.
  eexists; split; [reflexivity|]. split; [reflexivity|].
  apply substring_length. rewrite slug_encoding_length.
  unfold slugLengthB32; lia.
Qed.


(** Membership in a trace given by its elements. *)
Ltac in_cases H :=
  simpl in H;
  repeat match type of H with
         | _ \/ _ => destruct H as [H|H]
         end;
  try contradiction; try discriminate.

Ltac failed_setup_tac :=
  left; eexists; split; [reflexivity|];
  unfold failed_setup; split; [reflexivity|]; split; [reflexivity|];
  split; [|split];
  [ intros r Hin; in_cases Hin; injection Hin as <-; discriminate
  | intros cfg' port' Hin; in_cases Hin; injection Hin as <- <-; auto
  | intros w' req' h' Hin; in_cases Hin ].

(** [setup] either returns early after exactly one failure result, or
    reaches the listener with nothing sent yet; it does not panic. *)
Lemma setup_cases (p : Parameters) (world : World) :
  (exists tr, setup p world = (tr, Return None) /\ failed_setup p tr)
  \/ (exists cfg pub url0,
        setup p world = (listening p cfg, Return (Some pub))
        /\ onion_config p = inr cfg
        /\ NewListener world cfg 80 = inl (pub_addr pub)
        /\ make_slug p world = Return (inr (pub_slug pub, url0))).
Proof.
  unfold setup.
  destruct (make_slug_cases p world)
    as [[err [-> _]] | [[slug [Hm _]] | [Hm _]]]; [failed_setup_tac | |];
    rewrite Hm;
    (destruct (resolve p world _) as [err | [fs url]]; [failed_setup_tac|]);
    (destruct (DialURL world (ControlPath p)) as [err|]; [failed_setup_tac|]);
    (destruct (Authenticate world (ControlPassword p)) as [err|]; [failed_setup_tac|]);
    (destruct (onion_config p) as [err | aocfg] eqn:Hcfg; [failed_setup_tac|]);
    (destruct (NewListener world aocfg 80) as [addr | err] eqn:Hl; [|failed_setup_tac]);
    right; eexists; eexists; eexists; (split; [reflexivity|]); simpl; auto.
Qed.


(** *** Runs of the two flows *)

Lemma consistent_extend (p : Parameters) (world : World) (pub : Published)
      (base : list Event) (st : Proc) (es : list Event) (l : MainPC)
      (c : list (option error)) (ex : bool) :
  consistent p world pub base st ->
  Forall (later_event p world pub) es ->
  ordered (trace st ++ es) = true ->
  pc_ok l (trace st ++ es) ->
  (ex = true -> exists pre msg, trace st ++ es = pre ++ [Fatal msg]) ->
  consistent p world pub base (mkProc l c (trace st ++ es) ex).
Proof.
  intros [[extra [Ht Hf]] _] Hes Ho Hpc Hex.
  unfold consistent; simpl. repeat split; auto.
  exists (extra ++ es). rewrite Ht, app_assoc. split; [reflexivity|].
  apply Forall_app; auto.
Qed.

Lemma sends_snoc_other (tr : list Event) (e : Event) :
  is_send e = false -> sends (tr ++ [e]) = sends tr.
Proof. intros He. rewrite sends_app. unfold sends at 2. simpl. rewrite He. simpl. lia. Qed.

Lemma pc_ok_snoc_other (l : MainPC) (tr : list Event) (e : Event) :
  is_send e = false -> pc_ok l tr -> pc_ok l (tr ++ [e]).
Proof.
  intros He. destruct l; simpl; rewrite ?sends_snoc_other by assumption; auto.
  intros [Hs Hv]; split; auto using existsb_app_l.
Qed.

Lemma step_monitor_consistent (p : Parameters) (world : World) (pub : Published)
      (base : list Event) (st : Proc) :
  exited st = false ->
  consistent p world pub base st ->
  consistent p world pub base (step_monitor st).
Proof.
  intros Hex Hc. pose proof Hc as [_ [Ho [Hpc _]]].
  unfold step_monitor. destruct (control st) as [|[err|] rest]; [exact Hc | |].
  - unfold fatal; simpl.
    apply consistent_extend;
      [ exact Hc | repeat constructor
      | rewrite ordered_snoc, Ho; reflexivity
      | apply pc_ok_snoc_other; auto
      | intros _; eauto ].
  - apply consistent_extend;
      [ exact Hc | repeat constructor
      | rewrite ordered_snoc, Ho; reflexivity
      | apply pc_ok_snoc_other; auto
      | rewrite Hex; discriminate ].
Qed.

Lemma step_main_consistent (p : Parameters) (world : World) (pub : Published)
      (base : list Event) (st : Proc) :
  existsb is_listener base = true ->
  exited st = false ->
  consistent p world pub base st ->
  consistent p world pub base (step_main p world pub st).
Proof.
  intros Hb Hex Hc. pose proof Hc as [[extra [Ht _]] [Ho [Hpc _]]].
  assert (Hl : existsb is_listener (trace st) = true)
    by (rewrite Ht; apply existsb_app_l; exact Hb).
  unfold step_main.
  destruct (pc st) as [| |[|[w req] pending]| |] eqn:Hl0; simpl in Hpc;
    unfold goto, record, fatal; simpl; try exact Hc.
  - (* the result is sent *)
    apply consistent_extend;
      [ exact Hc | repeat constructor
      | rewrite ordered_snoc, Ho; simpl; rewrite Hpc, Hl; reflexivity
      | simpl; rewrite sends_app, Hpc; reflexivity
      | rewrite Hex; discriminate ].
  - (* Serve is entered *)
    apply consistent_extend;
      [ exact Hc | repeat constructor
      | rewrite ordered_snoc, Ho; simpl; rewrite Hpc; reflexivity
      | simpl; rewrite sends_snoc_other by reflexivity; split; [assumption|];
        rewrite existsb_app; simpl; apply orb_true_r
      | rewrite Hex; discriminate ].
  - (* Serve returns, or keeps waiting *)
    destruct Hpc as [Hs Hv].
    destruct (Serve_result world) as [[err|]|] eqn:Hr.
    + apply consistent_extend;
        [ exact Hc | repeat constructor
        | rewrite ordered_snoc, Ho; reflexivity
        | apply pc_ok_snoc_other; [reflexivity | rewrite Hl0; simpl; auto]
        | intros _; eauto ].
    + apply consistent_extend;
        [ exact Hc | repeat constructor; simpl; assumption
        | change [CloseListener; CloseConn] with ([CloseListener] ++ [CloseConn]);
          rewrite app_assoc, !ordered_snoc, Ho; reflexivity
        | simpl; rewrite sends_app; unfold sends at 2; simpl; lia
        | rewrite Hex; discriminate ].
    + exact Hc.
  - (* a request is handled *)
    destruct Hpc as [Hs Hv].
    apply consistent_extend;
      [ exact Hc | repeat constructor
      | rewrite ordered_snoc, Ho; simpl; rewrite Hv, Hs; reflexivity
      | simpl; rewrite sends_snoc_other by reflexivity; split; [assumption|];
        apply existsb_app_l; assumption
      | rewrite Hex; discriminate ].
Qed.

Lemma step_consistent (p : Parameters) (world : World) (pub : Published)
      (base : list Event) (t : Tid) (st : Proc) :
  existsb is_listener base = true ->
  consistent p world pub base st ->
  consistent p world pub base (step p world pub t st).
Proof.
  intros Hb Hc. unfold step. destruct (exited st) eqn:Hex; [exact Hc|].
  destruct t; [apply step_main_consistent | apply step_monitor_consistent]; auto.
Qed.

Lemma run_consistent (p : Parameters) (world : World) (pub : Published)
      (base : list Event) (sched : list Tid) : forall st : Proc,
  existsb is_listener base = true ->
  consistent p world pub base st ->
  consistent p world pub base (run p world pub sched st).
Proof.
  unfold run. induction sched as [|t sched IH]; intros st Hb Hc; simpl; [exact Hc|].
  apply IH; [exact Hb|]. apply step_consistent; assumption.
Qed.


(** Every run of [Onionize] is either a failed setup that has
    returned, or a consistent run over a published listener. *)
Lemma Onionize_cases (p : Parameters) (world : World) (sched : list Tid) :
  (exists tr, Onionize p world sched = mkProc Returned [] tr false
              /\ failed_setup p tr)
  \/ (exists cfg pub url0,
        onion_config p = inr cfg
        /\ NewListener world cfg 80 = inl (pub_addr pub)
        /\ make_slug p world = Return (inr (pub_slug pub, url0))
        /\ consistent p world pub (listening p cfg ++ [GoMonitor])
                      (Onionize p world sched)).
Proof.
  unfold Onionize.
  destruct (setup_cases p world)
    as [[tr [-> Hf]] | [cfg [pub [url0 [-> [Hcfg [Hl Hm]]]]]]]; [left; eauto|].
  right. exists cfg, pub, url0. repeat (split; [assumption|]).
  apply run_consistent; [reflexivity|].
  unfold consistent; split; [|split; [|split]].
  - exists []. split; [symmetry; apply app_nil_r | constructor].
  - reflexivity.
  - reflexivity.
  - discriminate.
Qed.




(** The listener is created with the configuration of [onion_config]
    on port 80, in every run. *)
Lemma listener_config (p : Parameters) (world : World) (sched : list Tid)
      (cfg : bulb.NewOnionConfig) (port : Z) :
  In (CreateListener cfg port) (trace (Onionize p world sched)) ->
  onion_config p = inr cfg /\ port = 80%Z.
Proof.
  destruct (Onionize_cases p world sched)
    as [[tr [-> [_ [_ [_ [Hl _]]]]]] | [cfg' [pub [url0 [Hcfg [_ [_ Hc]]]]]]].
  - simpl. apply Hl.
  - destruct Hc as [[extra [-> Hf]] _]. intros Hin.
    apply in_app_or in Hin; destruct Hin as [Hin|Hin].
    + in_cases Hin. injection Hin as <- <-. auto.
    + rewrite Forall_forall in Hf. apply Hf in Hin. contradiction.
Qed.

Lemma onion_config_fields (p : Parameters) (cfg : bulb.NewOnionConfig) :
  onion_config p = inr cfg ->
  bulb.AwaitForUpload cfg = true
  /\ bulb.DiscardPK cfg = true
  /\ (Passphrase p = EmptyString -> bulb.PrivateKey cfg = None)
  /\ (Passphrase p <> EmptyString -> exists key, bulb.PrivateKey cfg = Some key).
Proof.
  unfold onion_config.
  destruct (String.eqb_spec (Passphrase p) EmptyString) as [He|Hn]; simpl.
  - intros E; injection E as <-. simpl. repeat split; auto. contradiction.
  - destruct (onionutil.KeystreamReader _ _) as [keyrd|]; [|discriminate].
    destruct (onionutil.GenerateOnionKey keyrd) as [key|]; [|discriminate].
    intros E; injection E as <-. simpl. repeat split; eauto. contradiction.
Qed.

Lemma enabled_slug_length (p : Parameters) (world : World) (slug url0 : string) :
  Slug p = true ->
  make_slug p world = Return (inr (slug, url0)) ->
  String.length slug = slugLengthB32.
Proof.
  intros Hs Hm.
  destruct (make_slug_cases p world)
    as [[err [E _]] | [[slug' [E [_ Hl]]] | [E Hd]]]; congruence.
Qed.

Lemma enabled_slug_nonempty (p : Parameters) (world : World) (slug url0 : string) :
  Slug p = true ->
  make_slug p world = Return (inr (slug, url0)) ->
  slug <> EmptyString.
Proof.
  intros Hs Hm E. apply (enabled_slug_length p world slug url0 Hs) in Hm.
  subst slug. discriminate.
Qed.

Lemma digit_not_separator (v : Z) : Ascii.eqb (onionutil.digit v) "/" = false.
Proof.
  unfold onionutil.digit. generalize (Z.to_nat v) as n. intros n.
  do 32 (destruct n as [|n]; [reflexivity|]).
  destruct n; reflexivity.
Qed.

(** The generated slug starts with a character of the base32 alphabet,
    not with a separator. *)
Lemma enabled_slug_no_separator (p : Parameters) (world : World) (slug url0 : string) :
  Slug p = true ->
  make_slug p world = Return (inr (slug, url0)) ->
  strings.HasPrefix slug "/" = false.
Proof.
  unfold make_slug. intros ->. destruct (rand_err world); [discriminate|].
  unfold slice_to. rewrite slug_encoding_length.
  change (slugLengthB32 <=? 24)%nat with true. cbv iota.
  intros E; injection E as <- _.
  unfold strings.HasPrefix. rewrite digit_not_separator. reflexivity.
Qed.

Lemma disabled_slug_empty (p : Parameters) (world : World) (slug url0 : string) :
  Slug p = false ->
  make_slug p world = Return (inr (slug, url0)) ->
  slug = EmptyString.
Proof. unfold make_slug. intros ->. intros E. congruence. Qed.

Lemma no_file_serve (h : H unit) (l : list HEvent) :
  actions h = l -> (forall r, ~ In (FileServe r) l) ->
  forall r, ~ In (FileServe r) (fst h).
Proof.
  intros <- Hn r Hin. apply (Hn r). unfold actions.
  apply filter_In. split; [exact Hin | reflexivity].
Qed.

(** *** Claims about the lifecycle *)


(** C5. Whenever a listener is created, it is on port 80 with a
    configuration that awaits the upload of the descriptor and asks
    the server to discard the private key; the configuration carries
    a key exactly when a passphrase was given. *)
Theorem C5_listener_configuration (p : Parameters) (world : World)
        (sched : list Tid) (cfg : bulb.NewOnionConfig) (port : Z) :
  In (CreateListener cfg port) (trace (Onionize p world sched)) ->
  port = 80%Z
  /\ bulb.AwaitForUpload cfg = true
  /\ bulb.DiscardPK cfg = true
  /\ (Passphrase p = EmptyString -> bulb.PrivateKey cfg = None)
  /\ (Passphrase p <> EmptyString -> exists key, bulb.PrivateKey cfg = Some key).
Proof.
  intros Hin. apply listener_config in Hin. destruct Hin as [Hcfg ->].
  split; [reflexivity|]. apply onion_config_fields; exact Hcfg.
Qed.

(** C6 (what the code does). When the process has exited, which
    happens through [log.Fatalf] only, the trace ends with the fatal
    message; the control connection was dialled and the listener
    created, and, [Serve] never returning nil, neither of them has
    been closed. *)
Theorem C6_fatal_exit_skips_cleanup (p : Parameters) (world : World)
        (sched : list Tid) :
  Serve_result world <> Some None ->
  exited (Onionize p world sched) = true ->
  (exists pre msg, trace (Onionize p world sched) = pre ++ [Fatal msg])
  /\ In (Dial (ControlPath p)) (trace (Onionize p world sched))
  /\ (exists cfg, In (CreateListener cfg 80) (trace (Onionize p world sched)))
  /\ ~ In CloseConn (trace (Onionize p world sched))
  /\ ~ In CloseListener (trace (Onionize p world sched)).
Proof.
  intros Hserve Hex.
  destruct (Onionize_cases p world sched)
    as [[tr [E _]] | [cfg [pub [url0 [_ [_ [_ Hc]]]]]]].
  - rewrite E in Hex. discriminate.
  - destruct Hc as [[extra [E Hf]] [_ [_ Hlast]]].
    split; [exact (Hlast Hex)|]. rewrite E. rewrite Forall_forall in Hf.
    split; [simpl; auto|]. split; [exists cfg; simpl; auto|].
    split; intros Hin; apply in_app_or in Hin; destruct Hin as [Hin|Hin];
      try (in_cases Hin); apply Hf in Hin; simpl in Hin; contradiction.
Qed.

End LifecycleProperties.

(** ** Claims about the gate *)

Lemma HasPrefix_refl (s : string) : strings.HasPrefix s s = true.
Proof. induction s as [|c s IH]; simpl; [reflexivity|]. now rewrite Ascii.eqb_refl. Qed.

Lemma drop_all (s : string) : strings.drop (String.length s) s = EmptyString.
Proof. induction s as [|c s IH]; simpl; auto. Qed.

Lemma TrimLeft_root : strings.TrimLeft "/" "/" = EmptyString.
Proof. reflexivity. Qed.

Section GateClaims.

Context `{NetURL : neturl.API} `{OnionUtil : onionutil.API}.

(** C1 (amended). With slug mode enabled, a request passed to the
    handler whose URL, once all its leading separators are stripped,
    does not start with the slug of the invocation is not passed to
    the file server and gets no response from the handler: the handler
    closes the hijacked connection, or, when the connection cannot be
    hijacked, only logs and returns. *)
Theorem C1_unmatched_request_is_reset (p : Parameters) (world : World)
        (slug url0 : string) (w : ResponseWriter) (req : Request)
        (u : neturl.URL) :
  Slug p = true ->
  make_slug p world = Return (inr (slug, url0)) ->
  URL req = Some u ->
  strings.HasPrefix (strings.TrimLeft (neturl.String u) "/") slug = false ->
  snd (handler p slug w req) = Return tt
  /\ actions (handler p slug w req)
     = match w with HijackWriter None => [ConnClose] | _ => [] end
  /\ (forall r, ~ In (FileServe r) (fst (handler p slug w req)))
  /\ (forall location code,
        ~ In (Redirect location code) (fst (handler p slug w req))).
Proof.
  intros Hs Hm Hu Hp.
  pose proof (enabled_slug_nonempty p world slug url0 Hs Hm) as Hne.
  destruct (CheckAndRewriteSlug_mismatch req slug u Hne Hu Hp) as [err Hc].
  destruct (handler_rejects p slug w req err Hc) as [Hr Ha].
  split; [exact Hr|]. split; [exact Ha|]. split.
  - apply (no_file_serve _ _ Ha).
    destruct w as [|[e|]]; intros r Hi; simpl in Hi; intuition discriminate.
  - intros location code Hi.
    assert (Hi' : In (Redirect location code) (actions (handler p slug w req)))
      by (apply filter_In; split; [exact Hi | reflexivity]).
    rewrite Ha in Hi'.
    destruct w as [|[e|]]; simpl in Hi'; intuition discriminate.
Qed.

(** C3 (amended). With slug mode enabled, a request for the bare root
    path is reset like any request without the slug, and no redirect
    is issued; a request whose URL is the slug after its leading
    separators, so that nothing is left once the slug is stripped, is
    answered with a 302 redirect to the slug directory.  With slug
    mode disabled the gate leaves the request as it is, and a request
    with a non-empty URL is passed to the file server without any
    redirect. *)
Theorem C3_redirect_needs_slug (p : Parameters) (world : World)
        (slug url0 : string) (w : ResponseWriter) (req : Request)
        (u : neturl.URL) :
  make_slug p world = Return (inr (slug, url0)) ->
  URL req = Some u ->
  (Slug p = true -> neturl.String u = "/" ->
   actions (handler p slug w req) =
   match w with HijackWriter None => [ConnClose] | _ => [] end)
  /\ (Slug p = true -> strings.TrimLeft (neturl.String u) "/" = slug ->
      forall u0, neturl.Parse EmptyString = inl u0 ->
                 neturl.String u0 = EmptyString ->
      actions (handler p slug w req) =
      [Redirect ("/" ++ slug ++ "/") 302; FileServe (mkRequest (Some u0))])
  /\ (Slug p = false ->
      CheckAndRewriteSlug req slug = Return (req, None)
      /\ (neturl.String u <> EmptyString ->
          actions (handler p slug w req) = [FileServe req])).
Proof.
  intros Hm Hu. split; [|split].
  - intros Hs Hroot.
    pose proof (enabled_slug_nonempty p world slug url0 Hs Hm) as Hne.
    assert (Hp : strings.HasPrefix (strings.TrimLeft (neturl.String u) "/") slug = false).
    { rewrite Hroot, TrimLeft_root. destruct slug; [contradiction | reflexivity]. }
    destruct (CheckAndRewriteSlug_mismatch req slug u Hne Hu Hp) as [err Hc].
    apply (handler_rejects p slug w req err Hc).
  - intros Hs Ht u0 Hparse Hstr.
    pose proof (enabled_slug_nonempty p world slug url0 Hs Hm) as Hne.
    assert (Hp : strings.HasPrefix (strings.TrimLeft (neturl.String u) "/") slug = true)
      by (rewrite Ht; apply HasPrefix_refl).
    pose proof (CheckAndRewriteSlug_match req slug u Hne Hu Hp) as Hc.
    rewrite Ht, drop_all in Hc. unfold neturl.Parse_ptr in Hc. rewrite Hparse in Hc.
    destruct (handler_accepts p slug w req _ u0 Hc eq_refl) as [_ Ha].
    rewrite Ha, Hstr. reflexivity.
  - intros Hs. rewrite (disabled_slug_empty p world slug url0 Hs Hm).
    split; [reflexivity|]. intros Hne.
    destruct (handler_accepts p EmptyString w req req u
                              (CheckAndRewriteSlug_disabled req) Hu) as [_ Ha].
    rewrite Ha. apply String.eqb_neq in Hne. now rewrite Hne.
Qed.

(** C7 (amended). With slug mode enabled, matching strips every leading
    separator of the request URL before the first [len(slug)] bytes
    are compared with the slug: a URL made of any number of
    separators, the slug and a remainder is accepted, and the request
    is rewritten to the parse of that remainder, from which nothing but
    the separators and the slug has been removed; a URL that does not
    start with the slug once its leading separators are gone is
    refused and the request is left as it was. *)
Theorem C7_all_leading_separators_stripped (p : Parameters) (world : World)
        (slug url0 : string) (req : Request) (u : neturl.URL) :
  Slug p = true ->
  make_slug p world = Return (inr (slug, url0)) ->
  URL req = Some u ->
  (forall n rest,
      neturl.String u = (strings.Repeat "/" n ++ slug ++ rest)%string ->
      CheckAndRewriteSlug req slug =
      Return (mkRequest (neturl.Parse_ptr rest), None))
  /\ (strings.HasPrefix (strings.TrimLeft (neturl.String u) "/") slug = false ->
      exists err, CheckAndRewriteSlug req slug = Return (req, Some err)).
Proof.
  intros Hs Hm Hu.
  pose proof (enabled_slug_nonempty p world slug url0 Hs Hm) as Hne.
  pose proof (enabled_slug_no_separator p world slug url0 Hs Hm) as Hsep.
  split.
  - intros n rest Hstr.
    assert (Ht : strings.TrimLeft (neturl.String u) "/" = (slug ++ rest)%string).
    { rewrite Hstr. apply TrimLeft_slashes.
      destruct slug as [|c slug]; [contradiction|]. exact Hsep. }
    assert (Hp : strings.HasPrefix (strings.TrimLeft (neturl.String u) "/") slug = true)
      by (rewrite Ht; apply HasPrefix_append).
    rewrite (CheckAndRewriteSlug_match req slug u Hne Hu Hp), Ht, drop_append.
    reflexivity.
  - apply CheckAndRewriteSlug_mismatch; assumption.
Qed.

(** C8. The branches the gate takes on a request that is refused for a
    wrong slug do not depend on where the request differs from the
    slug: two requests with the same number of leading separators,
    each long enough to hold the slug and neither starting with it,
    make [CheckAndRewriteSlug] take the same branches, the comparison
    contributing one length test, one loop test per byte of the slug
    and the loop exit. *)
Theorem C8_gate_branches_independent_of_mismatch (slug : string)
        (req1 req2 : Request) (u1 u2 : neturl.URL) (n : nat) (t1 t2 : string) :
  slug <> EmptyString ->
  URL req1 = Some u1 -> URL req2 = Some u2 ->
  neturl.String u1 = (strings.Repeat "/" n ++ t1)%string ->
  neturl.String u2 = (strings.Repeat "/" n ++ t2)%string ->
  strings.HasPrefix t1 "/" = false -> strings.HasPrefix t2 "/" = false ->
  (String.length slug <= String.length t1)%nat ->
  (String.length slug <= String.length t2)%nat ->
  strings.HasPrefix t1 slug = false -> strings.HasPrefix t2 slug = false ->
  exists bs,
    CheckAndRewriteSlug_traced req1 slug = Return ((req1, Some "Wrong slug"), bs)
    /\ CheckAndRewriteSlug_traced req2 slug = Return ((req2, Some "Wrong slug"), bs)
    /\ CheckAndRewriteSlug req1 slug = Return (req1, Some "Wrong slug")
    /\ CheckAndRewriteSlug req2 slug = Return (req2, Some "Wrong slug")
    /\ length bs = (n + String.length slug + 6)%nat.
Proof.
  intros Hne Hu1 Hu2 Hs1 Hs2 Hsep1 Hsep2 Hl1 Hl2 Hp1 Hp2.
  pose proof (CheckAndRewriteSlug_traced_mismatch req1 slug u1 n t1
                Hne Hu1 Hs1 Hsep1 Hl1 Hp1) as H1.
  pose proof (CheckAndRewriteSlug_traced_mismatch req2 slug u2 n t2
                Hne Hu2 Hs2 Hsep2 Hl2 Hp2) as H2.
  eexists. split; [exact H1|]. split; [exact H2|].
  split; [|split].
  - rewrite <- CheckAndRewriteSlug_traced_result, H1. reflexivity.
  - rewrite <- CheckAndRewriteSlug_traced_result, H2. reflexivity.
  - simpl. rewrite !length_app. simpl. rewrite !length_app, !repeat_length.
    simpl. lia.
Qed.

(** C9. With a non-empty slug, when the gate accepts a request and the
    rewritten URL is empty, the handler issues the 302 redirect to the
    slug directory and then, not having returned, passes the same
    rewritten request to the file server. *)
Theorem C9_redirect_then_file_server (p : Parameters) (slug : string)
        (w : ResponseWriter) (req req' : Request) (u' : neturl.URL) :
  slug <> EmptyString ->
  CheckAndRewriteSlug req slug = Return (req', None) ->
  URL req' = Some u' ->
  neturl.String u' = EmptyString ->
  actions (handler p slug w req) =
  [Redirect ("/" ++ slug ++ "/") 302; FileServe req']
  /\ snd (handler p slug w req) = Return tt.
Proof.
  intros _ Hc Hu Hs.
  destruct (handler_accepts p slug w req req' u' Hc Hu) as [Hr Ha].
  rewrite Ha, Hs. auto.
Qed.

(** C10. When the request starts with the slug, the remainder is
    parsed and the result stored in the request, the parse error
    being dropped; when the remainder does not parse, the gate still
    reports no error and leaves a nil URL, so the handler does not
    reset the connection: it goes on with the nil URL, which it
    dereferences. *)
Theorem C10_parse_error_discarded (p : Parameters) (slug : string)
        (w : ResponseWriter) (req : Request) (u : neturl.URL) :
  slug <> EmptyString ->
  URL req = Some u ->
  strings.HasPrefix (strings.TrimLeft (neturl.String u) "/") slug = true ->
  let remainder :=
    strings.drop (String.length slug) (strings.TrimLeft (neturl.String u) "/") in
  CheckAndRewriteSlug req slug =
    Return (mkRequest (match neturl.Parse remainder with
                       | inl u' => Some u'
                       | inr _ => None
                       end), None)
  /\ (forall err, neturl.Parse remainder = inr err ->
      CheckAndRewriteSlug req slug = Return (mkRequest None, None)
      /\ ~ In ConnClose (fst (handler p slug w req))
      /\ actions (handler p slug w req) = []
      /\ snd (handler p slug w req) =
         Panic "invalid memory address or nil pointer dereference").
Proof.
  intros Hne Hu Hp remainder.
  pose proof (CheckAndRewriteSlug_match req slug u Hne Hu Hp) as Hc.
  fold remainder in Hc. unfold neturl.Parse_ptr in Hc.
  split; [exact Hc|].
  intros err Herr. rewrite Herr in Hc. split; [exact Hc|].
  destruct (handler_nil_url p slug w req _ Hc eq_refl) as [Hpanic Ha].
  split; [|split; assumption].
  intros Hin.
  assert (Hin' : In ConnClose (actions (handler p slug w req)))
    by (apply filter_In; split; [exact Hin | reflexivity]).
  rewrite Ha in Hin'. exact Hin'.
Qed.

End GateClaims.

(** ** Concrete runs *)

(** C1: the path of the request does not start with the slug, there
    being a second separator before it, and the handler passes the
    request to the file server. *)
Lemma C1_counterexample :
  let p := Sample.with_slug in
  let req := Sample.request "//mfqwcylbmfqwcylb/index.html" in
  Slug p = true
  /\ make_slug p Sample.quiet = Return (inr (Sample.slug, (Sample.slug ++ "/")%string))
  /\ strings.HasPrefix "/mfqwcylbmfqwcylb/index.html" Sample.slug = false
  /\ handler p Sample.slug (HijackWriter None) req
     = ([FileServe (Sample.request "/index.html")], Return tt)
  /\ In (FileServe (Sample.request "/index.html"))
        (fst (handler p Sample.slug (HijackWriter None) req)).
Proof. simpl. repeat split. left. reflexivity. Qed.

Lemma C1_unmatched_request_is_reset_witness :
  let p := Sample.with_slug in
  let req := Sample.request "/index.html" in
  let h := handler p Sample.slug (HijackWriter None) req in
  Slug p = true
  /\ make_slug p Sample.quiet = Return (inr (Sample.slug, (Sample.slug ++ "/")%string))
  /\ strings.HasPrefix (strings.TrimLeft "/index.html" "/") Sample.slug = false
  /\ snd h = Return tt
  /\ actions h = [ConnClose]
  /\ (forall r, ~ In (FileServe r) (fst h)).
Proof.
  intros p req h.
  split; [reflexivity|]. split; [reflexivity|]. split; [reflexivity|].
  destruct (C1_unmatched_request_is_reset
              p Sample.quiet Sample.slug (Sample.slug ++ "/")%string
              (HijackWriter None) req (texturl.mkURL EmptyString "/index.html")
              eq_refl eq_refl eq_refl eq_refl) as [Hr [Ha [Hf _]]].
  split; [exact Hr|]. split; [exact Ha | exact Hf].
Defined.


(** C3: with slug mode enabled, the request for the bare root path is
    reset and not redirected. *)
Lemma C3_counterexample :
  let p := Sample.with_slug in
  let h := handler p Sample.slug (HijackWriter None) (Sample.request "/") in
  Slug p = true
  /\ make_slug p Sample.quiet = Return (inr (Sample.slug, (Sample.slug ++ "/")%string))
  /\ h = ([ConnClose], Return tt)
  /\ ~ In (Redirect ("/" ++ Sample.slug ++ "/") 302) (fst h).
Proof.
  simpl. repeat split. intros [H|[]]. discriminate.
Qed.

Lemma C3_redirect_needs_slug_witness :
  let p := Sample.with_slug in
  let w := HijackWriter None in
  let req := Sample.request "/" in
  make_slug p Sample.quiet = Return (inr (Sample.slug, (Sample.slug ++ "/")%string))
  /\ URL req = Some (texturl.mkURL EmptyString "/")
  /\ actions (handler p Sample.slug w req) = [ConnClose]
  /\ actions (handler p Sample.slug w (Sample.request "/mfqwcylbmfqwcylb")) =
     [Redirect "/mfqwcylbmfqwcylb/" 302;
      FileServe (Sample.request EmptyString)]
  /\ actions (handler Sample.without_slug EmptyString w req) = [FileServe req].
Proof.
  intros p w req.
  split; [reflexivity|]. split; [reflexivity|]. split; [|split].
  - exact (proj1 (C3_redirect_needs_slug p Sample.quiet Sample.slug
                    (Sample.slug ++ "/")%string w req
                    (texturl.mkURL EmptyString "/") eq_refl eq_refl)
                 eq_refl eq_refl).
  - exact (proj1 (proj2 (C3_redirect_needs_slug p Sample.quiet Sample.slug
                    (Sample.slug ++ "/")%string w
                    (Sample.request "/mfqwcylbmfqwcylb")
                    (texturl.mkURL EmptyString "/mfqwcylbmfqwcylb") eq_refl eq_refl))
                 eq_refl eq_refl (texturl.mkURL EmptyString EmptyString)
                 eq_refl eq_refl).
  - apply (proj2 (proj2 (C3_redirect_needs_slug Sample.without_slug Sample.quiet
                    EmptyString EmptyString w req
                    (texturl.mkURL EmptyString "/") eq_refl eq_refl))
                 eq_refl).
    discriminate.
Defined.

Lemma C5_listener_configuration_witness :
  let tr := trace (Onionize Sample.with_slug Sample.quiet []) in
  In (CreateListener Sample.ephemeral_config 80) tr
  /\ bulb.AwaitForUpload Sample.ephemeral_config = true
  /\ bulb.DiscardPK Sample.ephemeral_config = true.
Proof.
  intros tr.
  assert (Hin : In (CreateListener Sample.ephemeral_config 80) tr)
    by (simpl; auto 10).
  split; [exact Hin|].
  destruct (C5_listener_configuration Sample.with_slug Sample.quiet []
              Sample.ephemeral_config 80 Hin) as [_ [Ha [Hd _]]].
  split; assumption.
Defined.

(** C6: [Serve] fails after the result was sent; the process exits
    without closing the listener or the control connection. *)
Lemma C6_fatal_exit_skips_cleanup_witness :
  let st := Onionize Sample.with_slug Sample.serve_fails
                     [MainFlow; MainFlow; MainFlow] in
  Serve_result Sample.serve_fails <> Some None
  /\ exited st = true
  /\ ~ In CloseConn (trace st)
  /\ ~ In CloseListener (trace st).
Proof.
  intros st.
  assert (Hs : Serve_result Sample.serve_fails <> Some None) by discriminate.
  split; [exact Hs|]. split; [reflexivity|].
  destruct (C6_fatal_exit_skips_cleanup Sample.with_slug Sample.serve_fails
              [MainFlow; MainFlow; MainFlow] Hs eq_refl) as [_ [_ [_ Hc]]].
  exact Hc.
Defined.

(** C7: two separators before the slug of an invocation with slug mode
    enabled; the request is accepted and rewritten. *)
Lemma C7_counterexample :
  Slug Sample.with_slug = true
  /\ make_slug Sample.with_slug Sample.quiet
     = Return (inr (Sample.slug, (Sample.slug ++ "/")%string))
  /\ CheckAndRewriteSlug (Sample.request "//mfqwcylbmfqwcylb/index.html") Sample.slug
     = Return (Sample.request "/index.html", None).
Proof. repeat split. Qed.

Lemma C7_all_leading_separators_stripped_witness :
  let p := Sample.with_slug in
  let req := Sample.request "///mfqwcylbmfqwcylb/index.html" in
  Slug p = true
  /\ make_slug p Sample.quiet = Return (inr (Sample.slug, (Sample.slug ++ "/")%string))
  /\ CheckAndRewriteSlug req Sample.slug = Return (Sample.request "/index.html", None).
Proof.
  intros p req.
  split; [reflexivity|]. split; [reflexivity|].
  exact (proj1 (C7_all_leading_separators_stripped
                  p Sample.quiet Sample.slug (Sample.slug ++ "/")%string req
                  (texturl.mkURL EmptyString "///mfqwcylbmfqwcylb/index.html")
                  eq_refl eq_refl eq_refl)
               3%nat "/index.html" eq_refl).
Defined.

(** C8: one request differs from the slug in its first byte, the other
    in its last. *)
Lemma C8_gate_branches_independent_of_mismatch_witness :
  let req1 := Sample.request "/Xfqwcylbmfqwcylb/index.html" in
  let req2 := Sample.request "/mfqwcylbmfqwcylX/index.html" in
  Sample.slug <> EmptyString
  /\ strings.HasPrefix "Xfqwcylbmfqwcylb/index.html" Sample.slug = false
  /\ strings.HasPrefix "mfqwcylbmfqwcylX/index.html" Sample.slug = false
  /\ exists bs,
      CheckAndRewriteSlug_traced req1 Sample.slug
      = Return ((req1, Some "Wrong slug"), bs)
      /\ CheckAndRewriteSlug_traced req2 Sample.slug
         = Return ((req2, Some "Wrong slug"), bs)
      /\ length bs = 23%nat.
Proof.
  intros req1 req2.
  assert (Hne : Sample.slug <> EmptyString) by discriminate.
  split; [exact Hne|]. split; [reflexivity|]. split; [reflexivity|].
  destruct (C8_gate_branches_independent_of_mismatch
              Sample.slug req1 req2
              (texturl.mkURL EmptyString "/Xfqwcylbmfqwcylb/index.html")
              (texturl.mkURL EmptyString "/mfqwcylbmfqwcylX/index.html")
              1%nat "Xfqwcylbmfqwcylb/index.html" "mfqwcylbmfqwcylX/index.html"
              Hne eq_refl eq_refl eq_refl eq_refl eq_refl eq_refl
              ltac:(simpl; lia) ltac:(simpl; lia) eq_refl eq_refl)
    as [bs [H1 [H2 [_ [_ Hlen]]]]].
  exists bs. split; [exact H1|]. split; [exact H2 | exact Hlen].
Defined.

Lemma C9_redirect_then_file_server_witness :
  let req := Sample.request "/mfqwcylbmfqwcylb" in
  let req' := Sample.request EmptyString in
  Sample.slug <> EmptyString
  /\ CheckAndRewriteSlug req Sample.slug = Return (req', None)
  /\ actions (handler Sample.with_slug Sample.slug (HijackWriter None) req) =
     [Redirect ("/" ++ Sample.slug ++ "/") 302; FileServe req'].
Proof.
  intros req req'.
  assert (Hne : Sample.slug <> EmptyString) by discriminate.
  split; [exact Hne|]. split; [reflexivity|].
  exact (proj1 (C9_redirect_then_file_server
                  Sample.with_slug Sample.slug (HijackWriter None) req req'
                  (texturl.mkURL EmptyString EmptyString)
                  Hne eq_refl eq_refl eq_refl)).
Defined.

Lemma C10_parse_error_discarded_witness :
  let req := Sample.request "/mfqwcylbmfqwcylb:80" in
  Sample.slug <> EmptyString
  /\ texturl.Parse ":80" = inr "missing protocol scheme"
  /\ CheckAndRewriteSlug req Sample.slug = Return (mkRequest None, None)
  /\ snd (handler Sample.with_slug Sample.slug (HijackWriter None) req) =
     Panic "invalid memory address or nil pointer dereference".
Proof.
  intros req.
  assert (Hne : Sample.slug <> EmptyString) by discriminate.
  split; [exact Hne|]. split; [reflexivity|].
  destruct (proj2 (C10_parse_error_discarded
                     Sample.with_slug Sample.slug (HijackWriter None) req
                     (texturl.mkURL EmptyString "/mfqwcylbmfqwcylb:80")
                     Hne eq_refl eq_refl)
                  "missing protocol scheme" eq_refl) as [Hc [_ [_ Hp]]].
  split; assumption.
Defined.

(** * Further properties of the code *)

(** ** Outcomes of [Onionize] *)

Section OutcomeProperties.

Context `{NetURL : neturl.API} `{OnionUtil : onionutil.API}.

Lemma started_consistent (p : Parameters) (world : World) (pub : Published)
      (cfg : bulb.NewOnionConfig) :
  consistent p world pub (listening p cfg ++ [GoMonitor]) (started p world cfg).
Proof.
  unfold consistent; split; [|split; [|split]].
  - exists []. split; [symmetry; apply app_nil_r | constructor].
  - reflexivity.
  - reflexivity.
  - discriminate.
Qed.

(** [Onionize] either returns from one of the early returns, or runs
    the two flows from the state in which the monitor was started. *)
Lemma Onionize_outcome (p : Parameters) (world : World) (sched : list Tid) :
  (exists tr, setup_failure p world tr
              /\ Onionize p world sched = mkProc Returned [] tr false)
  \/ (exists pub cfg,
        setup_success p world pub cfg
        /\ Onionize p world sched = run p world pub sched (started p world cfg)).
Proof.
  unfold Onionize, setup.
  destruct (make_slug_cases p world)
    as [[err [Hm _]] | [[slug [Hm _]] | [Hm _]]]; rewrite Hm.
  - left. eexists. split; [eapply fail_slug; eassumption | reflexivity].
  - destruct (resolve p world _) as [err | [fs url]] eqn:Hr;
      [left; eexists; split; [eapply fail_resolve; eassumption | reflexivity]|].
    destruct (DialURL world (ControlPath p)) as [err|] eqn:Hd;
      [left; eexists; split; [eapply fail_dial; eassumption | reflexivity]|].
    destruct (Authenticate world (ControlPassword p)) as [err|] eqn:Ha;
      [left; eexists; split; [eapply fail_auth; eassumption | reflexivity]|].
    destruct (onion_config p) as [err | cfg] eqn:Hc;
      [left; eexists; split; [eapply fail_key; eassumption | reflexivity]|].
    destruct (NewListener world cfg 80) as [addr | err] eqn:Hl;
      [|left; eexists; split; [eapply fail_listener; eassumption | reflexivity]].
    right. exists (mkPublished slug url fs addr), cfg. split; [|reflexivity].
    eexists. simpl. repeat (split; [eassumption|]). assumption.
  - destruct (resolve p world _) as [err | [fs url]] eqn:Hr;
      [left; eexists; split; [eapply fail_resolve; eassumption | reflexivity]|].
    destruct (DialURL world (ControlPath p)) as [err|] eqn:Hd;
      [left; eexists; split; [eapply fail_dial; eassumption | reflexivity]|].
    destruct (Authenticate world (ControlPassword p)) as [err|] eqn:Ha;
      [left; eexists; split; [eapply fail_auth; eassumption | reflexivity]|].
    destruct (onion_config p) as [err | cfg] eqn:Hc;
      [left; eexists; split; [eapply fail_key; eassumption | reflexivity]|].
    destruct (NewListener world cfg 80) as [addr | err] eqn:Hl;
      [|left; eexists; split; [eapply fail_listener; eassumption | reflexivity]].
    right. exists (mkPublished EmptyString url fs addr), cfg. split; [|reflexivity].
    eexists. simpl. repeat (split; [eassumption|]). assumption.
Qed.


Ltac mem_cases H :=
  simpl in H;
  repeat match type of H with
         | _ \/ _ => destruct H as [H|H]
         end;
  try contradiction; try discriminate.

(** The trace of a run over a published listener. *)
Lemma success_trace (p : Parameters) (world : World) (pub : Published)
      (cfg : bulb.NewOnionConfig) (sched : list Tid) :
  exists extra,
    trace (run p world pub sched (started p world cfg))
    = listening p cfg ++ GoMonitor :: extra
    /\ Forall (later_event p world pub) extra.
Proof.
  destruct (run_consistent p world pub (listening p cfg ++ [GoMonitor]) sched
              (started p world cfg) eq_refl (started_consistent p world pub cfg))
    as [[extra [Ht Hf]] _].
  exists extra. split; [|exact Hf]. rewrite Ht, <- app_assoc. reflexivity.
Qed.

Lemma success_membership (p : Parameters) (world : World) (pub : Published)
      (cfg : bulb.NewOnionConfig) (sched : list Tid) (e : Event) :
  In e (trace (run p world pub sched (started p world cfg))) ->
  In e (listening p cfg) \/ e = GoMonitor \/ later_event p world pub e.
Proof.
  destruct (success_trace p world pub cfg sched) as [extra [-> Hf]].
  intros Hin. apply in_app_or in Hin. destruct Hin as [Hin|[Hin|Hin]]; auto.
  rewrite Forall_forall in Hf. auto.
Qed.

(** X2. The control port is dialled only once the slug has been drawn
    and the content source resolved: when the archive cannot be opened
    or the path cannot be examined, the failure result is the only
    event of the invocation. *)
Theorem dial_follows_content_resolution (p : Parameters) (world : World)
        (sched : list Tid) :
  (forall c, In (Dial c) (trace (Onionize p world sched)) ->
             c = ControlPath p
             /\ exists slug url0 fs url,
                 make_slug p world = Return (inr (slug, url0))
                 /\ resolve p world url0 = inr (fs, url))
  /\ (forall slug url0 err,
        make_slug p world = Return (inr (slug, url0)) ->
        resolve p world url0 = inl err ->
        trace (Onionize p world sched) = [Send (ResultLink.failure err)]).
Proof.
  destruct (Onionize_outcome p world sched)
    as [[tr [Hf ->]] | [pub [cfg [[url0 [Hm [Hr _]]] ->]]]]; split.
  - intros c Hin. simpl in Hin.
    inversion Hf; subst; mem_cases Hin; injection Hin as <-; split; eauto 6.
  - intros slug url0 err Hm Hr. simpl.
    inversion Hf; subst; try congruence;
      match goal with
      | H : make_slug p world = Return (inr (?s, ?u)) |- _ =>
          rewrite Hm in H; injection H as <- <-; congruence
      end.
  - intros c Hin. apply success_membership in Hin.
    destruct Hin as [Hin|[Hin|Hin]]; [|discriminate|contradiction].
    mem_cases Hin. injection Hin as <-. split; eauto 6.
  - intros slug url1 err Hm' Hr'. rewrite Hm in Hm'. injection Hm' as <- <-.
    congruence.
Qed.

(** X3. A failure result sent after the control port was dialled with
    success is followed by the close of the control connection, which
    ends the trace and is the only close; a failure result sent
    earlier is followed by no close at all.  The listener is never
    closed on these paths. *)
Theorem early_return_closes_connection (p : Parameters) (world : World)
        (sched : list Tid) (r : ResultLink.t) (err : error) :
  In (Send r) (trace (Onionize p world sched)) ->
  ResultLink.Error r = Some err ->
  (DialURL world (ControlPath p) = None ->
   In (Dial (ControlPath p)) (trace (Onionize p world sched)) ->
   exists pre, trace (Onionize p world sched) = pre ++ [Send r; CloseConn]
               /\ ~ In CloseConn pre)
  /\ (~ In (SetDebug (Debug p)) (trace (Onionize p world sched)) ->
      ~ In CloseConn (trace (Onionize p world sched)))
  /\ ~ In CloseListener (trace (Onionize p world sched)).
Proof.
  intros Hin Herr.
  destruct (Onionize_outcome p world sched)
    as [[tr [Hf E]] | [pub [cfg [_ E]]]]; rewrite E in *; clear E.
  - simpl in *. inversion Hf; subst; mem_cases Hin; injection Hin as <-;
      (split; [|split]);
      try solve [intros Hd Hdial; mem_cases Hdial; congruence];
      try solve [intros Hn Hc; mem_cases Hc; apply Hn; simpl; tauto];
      try solve [intros Hc; mem_cases Hc].
    + intros _ _. eexists [_; _; _]. split; [reflexivity|].
      intros Hc; mem_cases Hc.
    + intros _ _. eexists [_; _; _]. split; [reflexivity|].
      intros Hc; mem_cases Hc.
    + intros _ _. eexists [_; _; _; _]. split; [reflexivity|].
      intros Hc; mem_cases Hc.
  - apply success_membership in Hin.
    destruct Hin as [Hin|[Hin|Hin]]; [mem_cases Hin | discriminate |].
    simpl in Hin. subst r. discriminate.
Qed.

(** X4. Once a failure result has been sent, the invocation has
    returned without starting the monitor, without serving and
    without handling a request, that result being the only one; the
    process has not exited. *)
Theorem failure_result_means_no_service (p : Parameters) (world : World)
        (sched : list Tid) (r : ResultLink.t) (err : error) :
  In (Send r) (trace (Onionize p world sched)) ->
  ResultLink.Error r = Some err ->
  pc (Onionize p world sched) = Returned
  /\ exited (Onionize p world sched) = false
  /\ sends (trace (Onionize p world sched)) = 1%nat
  /\ ~ In GoMonitor (trace (Onionize p world sched))
  /\ ~ In Serving (trace (Onionize p world sched))
  /\ (forall w req h, ~ In (Handled w req h) (trace (Onionize p world sched))).
Proof.
  intros Hin Herr.
  destruct (Onionize_outcome p world sched)
    as [[tr [Hf E]] | [pub [cfg [_ E]]]]; rewrite E in *; clear E.
  - simpl in *. clear Hin.
    inversion Hf; subst; repeat split; try reflexivity;
      try solve [intros Hc; mem_cases Hc]; intros w req h Hc; mem_cases Hc.
  - apply success_membership in Hin.
    destruct Hin as [Hin|[Hin|Hin]]; [mem_cases Hin | discriminate |].
    simpl in Hin. subst r. discriminate.
Qed.

(** X5. A listener is requested only after the dial and the
    authentication have succeeded, and these are the first things the
    invocation does with the control port: the trace starts with the
    dial, the debug setting, the authentication and the request for
    the listener, in this order. *)
Theorem listener_follows_authentication (p : Parameters) (world : World)
        (sched : list Tid) (cfg : bulb.NewOnionConfig) (port : Z) :
  In (CreateListener cfg port) (trace (Onionize p world sched)) ->
  DialURL world (ControlPath p) = None
  /\ Authenticate world (ControlPassword p) = None
  /\ exists rest,
      trace (Onionize p world sched)
      = Dial (ControlPath p) :: SetDebug (Debug p) :: Auth (ControlPassword p)
        :: CreateListener cfg port :: rest.
Proof.
  intros Hin.
  destruct (Onionize_outcome p world sched)
    as [[tr [Hf E]] | [pub [cfg' [[url0 [_ [_ [Hd [Ha _]]]]] E]]]];
    rewrite E in *; clear E.
  - simpl in *. inversion Hf; subst; mem_cases Hin.
    injection Hin as <- <-. repeat split; auto. eexists; reflexivity.
  - pose proof Hin as Hin'. apply success_membership in Hin'.
    destruct Hin' as [Hin'|[Hin'|Hin']]; [|discriminate|contradiction].
    mem_cases Hin'. injection Hin' as <- <-.
    destruct (success_trace p world pub cfg' sched) as [extra [-> _]].
    repeat split; auto. eexists; reflexivity.
Qed.


Lemma consistent_rebase (p : Parameters) (world : World) (pub : Published)
      (base : list Event) (st : Proc) :
  consistent p world pub base st -> consistent p world pub (trace st) st.
Proof.
  intros [_ H]. split; [|exact H].
  exists []. split; [symmetry; apply app_nil_r | constructor].
Qed.

(** A state in which no fatal error has occurred and none is queued on
    the control connection stays so, unless [Serve] returns an error. *)
Lemma step_stays_alive (p : Parameters) (world : World) (pub : Published)
      (t : Tid) (st : Proc) :
  (forall err, Serve_result world <> Some (Some err)) ->
  Forall (fun e => e = None) (control st) ->
  exited st = false ->
  (forall msg, ~ In (Fatal msg) (trace st)) ->
  Forall (fun e => e = None) (control (step p world pub t st))
  /\ exited (step p world pub t st) = false
  /\ (forall msg, ~ In (Fatal msg) (trace (step p world pub t st))).
Proof.
  intros Hs Hc He Hf.
  assert (Hsnoc : forall es msg,
             (forall e, In e es -> e <> Fatal msg) ->
             ~ In (Fatal msg) (trace st ++ es)).
  { intros es msg Hes Hin. apply in_app_or in Hin. destruct Hin as [Hin|Hin].
    - exact (Hf msg Hin).
    - exact (Hes _ Hin eq_refl). }
  unfold step. rewrite He. destruct t.
  - unfold step_main.
    destruct (pc st) as [| |[|[w req] pending]| |]; simpl; auto;
      try (repeat split; auto; intros msg; apply Hsnoc;
           intros e Hin; mem_cases Hin; subst e; discriminate).
    destruct (Serve_result world) as [[err|]|] eqn:Hr; simpl; auto.
    + exfalso. exact (Hs err eq_refl).
    + repeat split; auto; intros msg; apply Hsnoc;
        intros e Hin; mem_cases Hin; subst e; discriminate.
  - unfold step_monitor.
    destruct (control st) as [|[err|] rest] eqn:Ec; simpl.
    + rewrite Ec. auto.
    + apply Forall_inv in Hc. discriminate.
    + apply Forall_inv_tail in Hc. repeat split; auto; intros msg; apply Hsnoc;
        intros e Hin; mem_cases Hin; subst e; discriminate.
Qed.

Lemma run_stays_alive (p : Parameters) (world : World) (pub : Published)
      (sched : list Tid) : forall st : Proc,
  (forall err, Serve_result world <> Some (Some err)) ->
  Forall (fun e => e = None) (control st) ->
  exited st = false ->
  (forall msg, ~ In (Fatal msg) (trace st)) ->
  exited (run p world pub sched st) = false
  /\ (forall msg, ~ In (Fatal msg) (trace (run p world pub sched st))).
Proof.
  unfold run. induction sched as [|t sched IH]; intros st Hs Hc He Hf; simpl; [auto|].
  destruct (step_stays_alive p world pub t st Hs Hc He Hf) as [Hc' [He' Hf']].
  apply IH; assumption.
Qed.

(** X12. The process exits only on an error: as long as the control
    connection delivers events without error and [Serve] does not
    return an error, no scheduling of the two flows makes it exit or
    log a fatal message. *)
Theorem no_error_no_exit (p : Parameters) (world : World) (sched : list Tid) :
  Forall (fun e => e = None) (control_events world) ->
  (forall err, Serve_result world <> Some (Some err)) ->
  exited (Onionize p world sched) = false
  /\ (forall msg, ~ In (Fatal msg) (trace (Onionize p world sched))).
Proof.
  intros Hc Hs.
  destruct (Onionize_outcome p world sched)
    as [[tr [Hf ->]] | [pub [cfg [_ ->]]]].
  - split; [reflexivity|]. intros msg Hin. simpl in Hin.
    inversion Hf; subst; mem_cases Hin.
  - apply run_stays_alive; auto.
    intros msg Hin. mem_cases Hin.
Qed.

(** X14. When the main flow takes the first step after the monitor was
    started, exactly one result has been sent, whatever the two flows
    do afterwards; when the setup fails, the schedule does not
    matter. *)
Theorem main_flow_first_sends_result (p : Parameters) (world : World)
        (sched : list Tid) :
  sends (trace (Onionize p world (MainFlow :: sched))) = 1%nat.
Proof.
  destruct (Onionize_outcome p world (MainFlow :: sched))
    as [[tr [Hf ->]] | [pub [cfg [_ ->]]]].
  - simpl. inversion Hf; reflexivity.
  - change (run p world pub (MainFlow :: sched) (started p world cfg))
      with (run p world pub sched (step p world pub MainFlow (started p world cfg))).
    set (st1 := step p world pub MainFlow (started p world cfg)).
    assert (Hc1 : consistent p world pub (trace st1) st1).
    { apply (consistent_rebase p world pub (listening p cfg ++ [GoMonitor])).
      apply step_consistent; [reflexivity | apply started_consistent]. }
    destruct (run_consistent p world pub (trace st1) sched st1 eq_refl Hc1)
      as [[extra [Ht _]] [_ [Hpc _]]].
    assert (H1 : sends (trace st1) = 1%nat) by reflexivity.
    rewrite Ht in *. rewrite sends_app, H1 in *.
    destruct (pc (run p world pub sched st1));
      cbv beta iota delta [pc_ok] in Hpc;
      rewrite ?sends_app, ?H1 in Hpc; intuition lia.
Qed.

End OutcomeProperties.

(** ** The slug, the content source and the published link *)

Lemma string_app_nil_r (s : string) : (s ++ EmptyString)%string = s.
Proof. induction s as [|c s IH]; simpl; [reflexivity | now rewrite IH]. Qed.

Lemma IndexByte_append (s1 s2 : string) (c : ascii) :
  strings.IndexByte (s1 ++ s2)%string c
  = strings.IndexByte s1 c || strings.IndexByte s2 c.
Proof.
  induction s1 as [|d s1 IH]; simpl; [reflexivity|].
  destruct (Ascii.eqb c d); [reflexivity | exact IH].
Qed.

Lemma ReplaceAll_plus (s : string) :
  strings.IndexByte (strings.ReplaceAll s "+" "%20") "+" = false.
Proof.
  unfold strings.ReplaceAll. induction s as [|c s IH]; [reflexivity|].
  cbn [strings.replace_from strings.HasPrefix String.length Nat.sub].
  destruct (Ascii.eqb c "+") eqn:Hc; cbn [andb].
  - rewrite IndexByte_append, IH. reflexivity.
  - cbn [strings.IndexByte]. rewrite Ascii.eqb_sym, Hc. exact IH.
Qed.

Lemma Split_append (path : string) :
  (fst (filepath.Split path) ++ snd (filepath.Split path))%string = path.
Proof.
  induction path as [|c path IH]; [reflexivity|].
  cbn [filepath.Split]. destruct (filepath.Split path) as [dir file].
  cbn [fst snd] in IH. destruct dir as [|d dir].
  - cbn [append] in IH. subst file.
    destruct (Ascii.eqb_spec c "/") as [->|Hc]; reflexivity.
  - cbn [fst snd append]. now rewrite <- IH.
Qed.

Lemma Split_file_no_separator (path : string) :
  strings.IndexByte (snd (filepath.Split path)) "/" = false.
Proof.
  induction path as [|c path IH]; [reflexivity|].
  cbn [filepath.Split]. destruct (filepath.Split path) as [dir file].
  cbn [fst snd] in IH. destruct dir as [|d dir]; [|exact IH].
  destruct (Ascii.eqb c "/") eqn:Hc; cbn [snd]; [exact IH|].
  cbn [strings.IndexByte]. rewrite Ascii.eqb_sym, Hc. exact IH.
Qed.

Lemma digit_in_alphabet (v : Z) : In (onionutil.digit v) onionutil.alphabet.
Proof.
  assert (H : existsb (Ascii.eqb (onionutil.digit v)) onionutil.alphabet = true).
  { unfold onionutil.digit. generalize (Z.to_nat v) as n. intros n.
    do 32 (destruct n as [|n]; [reflexivity|]).
    destruct n; reflexivity. }
  apply existsb_exists in H. destruct H as [c [Hin Hc]].
  apply Ascii.eqb_eq in Hc. now subst.
Qed.

Section ContentProperties.

Context `{NetURL : neturl.API} `{OnionUtil : onionutil.API}.

(** X1. With slug mode enabled and the random source working, the slug
    has exactly sixteen characters, all of them digits of the base32
    alphabet (so none is a separator or padding), and the published
    path starts with the slug followed by a separator. *)
Theorem generated_slug_shape (p : Parameters) (world : World) (slug url0 : string) :
  Slug p = true ->
  make_slug p world = Return (inr (slug, url0)) ->
  rand_err world = None
  /\ String.length slug = 16%nat
  /\ base32_string slug
  /\ url0 = (slug ++ "/")%string.
Proof.
  unfold make_slug. intros ->. destruct (rand_err world); [discriminate|].
  unfold slice_to. rewrite slug_encoding_length.
  change (slugLengthB32 <=? 24)%nat with true. cbv iota.
  intros E; injection E as <- <-.
  split; [reflexivity|]. split; [reflexivity|]. split; [|reflexivity].
  cbn [base32_string]. repeat split; apply digit_in_alphabet.
Qed.

(** X7. When the path is a regular file, the file system handed to the
    file server exposes one name only, the last element of the
    absolute path, which contains no separator; the published path is
    extended by that name escaped, and the escaped name contains no
    plus sign. *)
Theorem single_file_exposes_basename (p : Parameters) (world : World)
        (url0 url : string) (fs : FileSystem) :
  Zip p = false ->
  os_Stat world (Path p) = inl false ->
  resolve p world url0 = inr (fs, url) ->
  exists abspath dir file escaped,
    filepath_Abs world (Path p) = inl abspath
    /\ fs = PickFS dir [(file, file)]
    /\ (dir ++ file)%string = abspath
    /\ strings.IndexByte file "/" = false
    /\ escaped = strings.ReplaceAll (neturl.QueryEscape file) "+" "%20"
    /\ strings.IndexByte escaped "+" = false
    /\ url = (url0 ++ escaped)%string.
Proof.
  intros Hz Hs. unfold resolve. rewrite Hz, Hs.
  destruct (filepath_Abs world (Path p)) as [abspath|err]; [|discriminate].
  pose proof (Split_append abspath) as Ha.
  pose proof (Split_file_no_separator abspath) as Hn.
  destruct (filepath.Split abspath) as [dir file]. cbn [fst snd] in Ha, Hn.
  intros E; injection E as <- <-.
  exists abspath, dir, file, (strings.ReplaceAll (neturl.QueryEscape file) "+" "%20").
  repeat split; auto. apply ReplaceAll_plus.
Qed.

Lemma resolve_tree (p : Parameters) (world : World) (url0 url : string)
      (fs : FileSystem) :
  resolve p world url0 = inr (fs, url) ->
  Zip p = true \/ os_Stat world (Path p) = inl true ->
  url = url0 /\ fs = if Zip p then ZipFS (Path p) else OSDir (Path p).
Proof.
  unfold resolve. destruct (Zip p).
  - destruct (zip_OpenReader world (Path p)); [discriminate|].
    intros E _; injection E as <- <-. auto.
  - intros E [Hz|Hs]; [discriminate|]. rewrite Hs in E.
    injection E as <- <-. auto.
Qed.

(** X6. A successful result carries the link made of the scheme, the
    address of the listener without its port suffix, a separator and
    the published path; the path is the slug followed by a separator
    when slug mode is enabled and empty otherwise, with nothing added
    for an archive or a directory. *)
Theorem published_link_format (p : Parameters) (world : World) (sched : list Tid)
        (r : ResultLink.t) :
  In (Send r) (trace (Onionize p world sched)) ->
  ResultLink.Error r = None ->
  exists cfg addr slug url0 fs url,
    onion_config p = inr cfg
    /\ NewListener world cfg 80 = inl addr
    /\ make_slug p world = Return (inr (slug, url0))
    /\ resolve p world url0 = inr (fs, url)
    /\ ResultLink.URL r
       = ("http://" ++ strings.TrimSuffix addr ":80" ++ "/" ++ url)%string
    /\ (Slug p = true -> url0 = (slug ++ "/")%string)
    /\ (Slug p = false -> url0 = EmptyString)
    /\ (Zip p = true \/ os_Stat world (Path p) = inl true -> url = url0).
Proof.
  intros Hin Herr.
  destruct (Onionize_outcome p world sched)
    as [[tr [Hf E]] | [pub [cfg [[url0 [Hm [Hr [_ [_ [Hc Hl]]]]]] E]]]];
    rewrite E in Hin; clear E.
  - simpl in Hin. inversion Hf; subst; simpl in Hin;
      repeat (destruct Hin as [Hin|Hin]; try discriminate; try contradiction);
      injection Hin as <-; discriminate.
  - apply success_membership in Hin.
    destruct Hin as [Hin|[Hin|Hin]]; [|discriminate|].
    + simpl in Hin.
      repeat (destruct Hin as [Hin|Hin]; try discriminate; try contradiction).
    + simpl in Hin. subst r.
      exists cfg, (pub_addr pub), (pub_slug pub), url0, (pub_fs pub), (pub_url pub).
      repeat (split; [assumption|]). split; [reflexivity|].
      split; [|split].
      * intros Hs.
        destruct (make_slug_cases p world)
          as [[err [E _]] | [[slug' [E _]] | [_ E]]]; congruence.
      * intros Hs. unfold make_slug in Hm. rewrite Hs in Hm. congruence.
      * intros Ht. apply (resolve_tree p world url0 _ _ Hr Ht).
Qed.

End ContentProperties.

(** ** The gate and the handler *)

Lemma ConstantTimeByteEq_nonzero (v : Z) :
  is_byte v -> v <> 0%Z -> subtle.ConstantTimeByteEq v 0 = 0%Z.
Proof.
  unfold is_byte, subtle.ConstantTimeByteEq; intros Hv Hn.
  rewrite Z.lxor_0_r, Z.shiftr_div_pow2 by lia.
  rewrite Z.mod_small by lia. apply Z.div_small. lia.
Qed.

Lemma ConstantTimeCompare_differ (x y : list Z) :
  Forall is_byte x -> Forall is_byte y -> x <> y ->
  subtle.ConstantTimeCompare x y = 0%Z.
Proof.
  intros Hx Hy Hne. unfold subtle.ConstantTimeCompare, subtle.ConstantTimeCompare_traced.
  destruct (Nat.eqb_spec (length x) (length y)) as [Hl|Hl]; simpl; [|reflexivity].
  assert (H0 : is_byte 0) by (unfold is_byte; lia).
  pose proof (compare_loop_value x y 0%Z Hl Hx Hy H0) as [Hb Hz].
  destruct (subtle.compare_loop x y 0) as [v bs]; simpl in *.
  apply ConstantTimeByteEq_nonzero; [assumption|].
  intros Hv. apply Hne. apply Hz. exact Hv.
Qed.

Section GateExtras.

Context `{NetURL : neturl.API} `{OnionUtil : onionutil.API}.

(** X17. The decision of the gate is the byte equality of the slug
    with the first [len(slug)] bytes of the URL stripped of its
    leading separators: on these two slices the constant-time
    comparison returns 1 when they are equal, and the gate accepts and
    rewrites the request; it returns 0 when they differ in any byte,
    and the gate reports a wrong slug and leaves the request as it
    was. *)
Theorem gate_decision_is_byte_equality (req : Request) (slug : string)
        (u : neturl.URL) :
  slug <> EmptyString ->
  URL req = Some u ->
  let reqURL := strings.TrimLeft (neturl.String u) "/" in
  (String.length slug <= String.length reqURL)%nat ->
  let head := substring 0 (String.length slug) reqURL in
  (head = slug ->
   subtle.ConstantTimeCompare (bytes_of_string slug) (bytes_of_string head) = 1%Z
   /\ CheckAndRewriteSlug req slug =
      Return (mkRequest (neturl.Parse_ptr (strings.drop (String.length slug) reqURL)),
              None))
  /\ (head <> slug ->
      subtle.ConstantTimeCompare (bytes_of_string slug) (bytes_of_string head) = 0%Z
      /\ CheckAndRewriteSlug req slug = Return (req, Some "Wrong slug")).
Proof.
  intros Hne Hu reqURL Hl head. split.
  - intros Heq. split.
    + apply ConstantTimeCompare_eq; auto using bytes_of_string_bytes.
      now rewrite Heq.
    + apply CheckAndRewriteSlug_match; auto.
      apply HasPrefix_substring. split; assumption.
  - intros Hdiff. split.
    + apply ConstantTimeCompare_differ; auto using bytes_of_string_bytes.
      intros E. apply bytes_of_string_inj in E. apply Hdiff. now symmetry.
    + assert (Hp : strings.HasPrefix reqURL slug = false).
      { destruct (strings.HasPrefix reqURL slug) eqn:Hp; [|reflexivity].
        apply HasPrefix_substring in Hp. destruct Hp as [_ Hp]. contradiction. }
      unfold CheckAndRewriteSlug.
      rewrite (eqb_empty_false _ Hne), Hu. cbn [neturl.String_ptr]. fold reqURL.
      destruct (Nat.ltb_spec (String.length reqURL) (String.length slug)) as [Hlt|_];
        [lia|].
      unfold slice_to. rewrite (proj2 (Nat.leb_le _ _) Hl).
      rewrite (slug_compare _ _ Hl), Hp. reflexivity.
Qed.

(** X8. On a request that has a URL the gate does not panic, whatever
    the slug: the slice of the first [len(slug)] bytes is taken only
    after the length test.  A URL that is shorter than the slug once
    its leading separators are stripped is refused as too short, a
    longer one that does not start with the slug as a wrong slug, and
    a refused request is left unchanged; the others are accepted. *)
Theorem gate_is_total_and_guarded (req : Request) (slug : string) (u : neturl.URL) :
  slug <> EmptyString ->
  URL req = Some u ->
  let reqURL := strings.TrimLeft (neturl.String u) "/" in
  exists req' err,
    CheckAndRewriteSlug req slug = Return (req', err)
    /\ ((String.length reqURL < String.length slug)%nat ->
        err = Some "URL is too short to have a slug in it" /\ req' = req)
    /\ ((String.length slug <= String.length reqURL)%nat ->
        strings.HasPrefix reqURL slug = false ->
        err = Some "Wrong slug" /\ req' = req)
    /\ (strings.HasPrefix reqURL slug = true -> err = None).
Proof.
  intros Hne Hu reqURL. unfold CheckAndRewriteSlug.
  rewrite (eqb_empty_false _ Hne), Hu. cbn [neturl.String_ptr]. fold reqURL.
  destruct (Nat.ltb_spec (String.length reqURL) (String.length slug)) as [Hlt|Hle].
  - eexists; eexists. split; [reflexivity|]. split; [auto|]. split; [lia|].
    intros Hp. apply HasPrefix_length in Hp. lia.
  - unfold slice_to. rewrite (proj2 (Nat.leb_le _ _) Hle).
    rewrite (slug_compare _ _ Hle).
    destruct (strings.HasPrefix reqURL slug) eqn:Hp; cbn [negb].
    + eexists; eexists. split; [reflexivity|]. split; [lia|].
      split; [discriminate | reflexivity].
    + eexists; eexists. split; [reflexivity|]. split; [lia|].
      split; [auto | discriminate].
Qed.

(** X9. The debug flag only adds log lines: what the handler does
    with the connection, which redirect it issues, what it passes to
    the file server and how it ends do not depend on the parameters. *)
Theorem debug_flag_only_logs (p p' : Parameters) (slug : string)
        (w : ResponseWriter) (req : Request) :
  actions (handler p slug w req) = actions (handler p' slug w req)
  /\ snd (handler p slug w req) = snd (handler p' slug w req).
Proof.
  unfold handler, actions, lift, when, hbind.
  destruct (CheckAndRewriteSlug req slug) as [[req' [err|]]|msg].
  - destruct (Debug p), (Debug p'), w as [|[e|]]; simpl; auto.
  - destruct (URL req') as [u'|]; simpl.
    + destruct (Debug p), (Debug p'), (String.eqb (neturl.String u') EmptyString);
        simpl; auto.
    + destruct (Debug p), (Debug p'); simpl; auto.
  - destruct (Debug p), (Debug p'); simpl; auto.
Qed.

(** X10. On a request that has a URL the handler panics in one case
    only: the URL starts with a non-empty slug and what follows the
    slug does not parse, which leaves a nil URL to dereference.  In
    every other case it returns normally. *)
Theorem handler_panics_only_on_unparsable_remainder
        (p : Parameters) (slug : string) (w : ResponseWriter) (req : Request)
        (u : neturl.URL) :
  URL req = Some u ->
  let reqURL := strings.TrimLeft (neturl.String u) "/" in
  let unparsable :=
    slug <> EmptyString
    /\ strings.HasPrefix reqURL slug = true
    /\ exists err, neturl.Parse (strings.drop (String.length slug) reqURL) = inr err in
  (unparsable ->
   snd (handler p slug w req) =
   Panic "invalid memory address or nil pointer dereference")
  /\ (~ unparsable -> snd (handler p slug w req) = Return tt).
Proof.
  intros Hu reqURL unparsable. subst unparsable. split.
  - intros [Hne [Hp [err Herr]]].
    pose proof (CheckAndRewriteSlug_match req slug u Hne Hu Hp) as Hc.
    fold reqURL in Hc. unfold neturl.Parse_ptr in Hc. rewrite Herr in Hc.
    apply (handler_nil_url p slug w req _ Hc eq_refl).
  - intros Hn.
    destruct (String.eqb_spec slug EmptyString) as [->|Hne].
    + apply (handler_accepts p EmptyString w req req u
                             (CheckAndRewriteSlug_disabled req) Hu).
    + destruct (strings.HasPrefix reqURL slug) eqn:Hp.
      * pose proof (CheckAndRewriteSlug_match req slug u Hne Hu Hp) as Hc.
        fold reqURL in Hc. unfold neturl.Parse_ptr in Hc.
        destruct (neturl.Parse (strings.drop (String.length slug) reqURL))
          as [u'|err] eqn:Hparse.
        -- apply (handler_accepts p slug w req _ u' Hc eq_refl).
        -- exfalso. apply Hn. eauto.
      * destruct (CheckAndRewriteSlug_mismatch req slug u Hne Hu Hp) as [err Hc].
        apply (handler_rejects p slug w req err Hc).
Qed.

(** X11. With slug mode enabled, a request whose URL is the slug of
    the invocation behind any number of separators, followed by a
    remainder that parses to a non-empty URL, is passed to the file
    server once, as the parse of that remainder, with no redirect and
    the connection left open. *)
Theorem matching_request_is_served_once (p : Parameters) (world : World)
        (slug url0 : string) (w : ResponseWriter) (req : Request)
        (u u' : neturl.URL) (n : nat) (rest : string) :
  Slug p = true ->
  make_slug p world = Return (inr (slug, url0)) ->
  URL req = Some u ->
  neturl.String u = (strings.Repeat "/" n ++ slug ++ rest)%string ->
  neturl.Parse rest = inl u' ->
  neturl.String u' <> EmptyString ->
  actions (handler p slug w req) = [FileServe (mkRequest (Some u'))]
  /\ snd (handler p slug w req) = Return tt.
Proof.
  intros Hs Hm Hu Hstr Hparse Hne'.
  pose proof (enabled_slug_nonempty p world slug url0 Hs Hm) as Hne.
  pose proof (enabled_slug_no_separator p world slug url0 Hs Hm) as Hsep.
  assert (Ht : strings.TrimLeft (neturl.String u) "/" = (slug ++ rest)%string).
  { rewrite Hstr. apply TrimLeft_slashes.
    destruct slug as [|c slug]; [contradiction|]. exact Hsep. }
  assert (Hp : strings.HasPrefix (strings.TrimLeft (neturl.String u) "/") slug = true)
    by (rewrite Ht; apply HasPrefix_append).
  pose proof (CheckAndRewriteSlug_match req slug u Hne Hu Hp) as Hc.
  rewrite Ht, drop_append in Hc. unfold neturl.Parse_ptr in Hc. rewrite Hparse in Hc.
  destruct (handler_accepts p slug w req _ u' Hc eq_refl) as [Hr Ha].
  split; [|exact Hr]. rewrite Ha.
  apply String.eqb_neq in Hne'. now rewrite Hne'.
Qed.

End GateExtras.

(** ** Concrete runs of the further properties *)

Lemma generated_slug_shape_witness :
  Slug Sample.with_slug = true
  /\ make_slug Sample.with_slug Sample.quiet
     = Return (inr (Sample.slug, (Sample.slug ++ "/")%string))
  /\ String.length Sample.slug = 16%nat
  /\ base32_string Sample.slug.
Proof.
  split; [reflexivity|]. split; [reflexivity|].
  destruct (generated_slug_shape Sample.with_slug Sample.quiet Sample.slug
              (Sample.slug ++ "/")%string eq_refl eq_refl) as [_ [Hl [Hb _]]].
  split; assumption.
Defined.

Lemma early_return_closes_connection_witness :
  let tr := trace (Onionize Sample.with_slug Scenario.auth_fails []) in
  In (Send Scenario.auth_failure) tr
  /\ ResultLink.Error Scenario.auth_failure = Some "Authentication failed: bad password"
  /\ DialURL Scenario.auth_fails (ControlPath Sample.with_slug) = None
  /\ In (Dial (ControlPath Sample.with_slug)) tr
  /\ exists pre, tr = pre ++ [Send Scenario.auth_failure; CloseConn]
                 /\ ~ In CloseConn pre.
Proof.
  intros tr.
  assert (Hin : In (Send Scenario.auth_failure) tr) by (simpl; auto 10).
  assert (Hd : In (Dial (ControlPath Sample.with_slug)) tr) by (simpl; auto 10).
  split; [exact Hin|]. split; [reflexivity|]. split; [reflexivity|].
  split; [exact Hd|].
  exact (proj1 (early_return_closes_connection
                  Sample.with_slug Scenario.auth_fails [] Scenario.auth_failure
                  "Authentication failed: bad password" Hin eq_refl)
               eq_refl Hd).
Defined.

Lemma failure_result_means_no_service_witness :
  let st := Onionize Sample.with_slug Scenario.auth_fails [MainFlow; Monitor] in
  In (Send Scenario.auth_failure) (trace st)
  /\ ResultLink.Error Scenario.auth_failure = Some "Authentication failed: bad password"
  /\ pc st = Returned
  /\ sends (trace st) = 1%nat.
Proof.
  intros st.
  assert (Hin : In (Send Scenario.auth_failure) (trace st)) by (simpl; auto 10).
  split; [exact Hin|]. split; [reflexivity|].
  destruct (failure_result_means_no_service
              Sample.with_slug Scenario.auth_fails [MainFlow; Monitor]
              Scenario.auth_failure "Authentication failed: bad password"
              Hin eq_refl) as [Hpc [_ [Hs _]]].
  split; assumption.
Defined.

Lemma listener_follows_authentication_witness :
  let tr := trace (Onionize Sample.with_slug Sample.quiet [MainFlow]) in
  In (CreateListener Sample.ephemeral_config 80) tr
  /\ DialURL Sample.quiet (ControlPath Sample.with_slug) = None
  /\ Authenticate Sample.quiet (ControlPassword Sample.with_slug) = None.
Proof.
  intros tr.
  assert (Hin : In (CreateListener Sample.ephemeral_config 80) tr)
    by (simpl; auto 10).
  split; [exact Hin|].
  destruct (listener_follows_authentication
              Sample.with_slug Sample.quiet [MainFlow]
              Sample.ephemeral_config 80 Hin) as [Hd [Ha _]].
  split; assumption.
Defined.

Lemma published_link_format_witness :
  let tr := trace (Onionize Sample.with_slug Sample.quiet [MainFlow]) in
  In (Send Scenario.published) tr
  /\ ResultLink.Error Scenario.published = None
  /\ exists cfg addr slug url0 fs url,
      onion_config Sample.with_slug = inr cfg
      /\ NewListener Sample.quiet cfg 80 = inl addr
      /\ make_slug Sample.with_slug Sample.quiet = Return (inr (slug, url0))
      /\ resolve Sample.with_slug Sample.quiet url0 = inr (fs, url)
      /\ ResultLink.URL Scenario.published
         = ("http://" ++ strings.TrimSuffix addr ":80" ++ "/" ++ url)%string.
Proof.
  intros tr.
  assert (Hin : In (Send Scenario.published) tr) by (simpl; auto 10).
  split; [exact Hin|]. split; [reflexivity|].
  destruct (published_link_format Sample.with_slug Sample.quiet [MainFlow]
              Scenario.published Hin eq_refl)
    as [cfg [addr [slug [url0 [fs [url [H1 [H2 [H3 [H4 [H5 _]]]]]]]]]]].
  exists cfg, addr, slug, url0, fs, url. auto.
Defined.

Lemma single_file_exposes_basename_witness :
  Zip Scenario.one_file = false
  /\ os_Stat Scenario.file_world (Path Scenario.one_file) = inl false
  /\ resolve Scenario.one_file Scenario.file_world EmptyString
     = inr (PickFS "/tmp/" [("report one.pdf", "report one.pdf")],
            "report%20one.pdf")
  /\ strings.IndexByte "report%20one.pdf" "+" = false.
Proof.
  assert (Hr : resolve Scenario.one_file Scenario.file_world EmptyString
               = inr (PickFS "/tmp/" [("report one.pdf", "report one.pdf")],
                      "report%20one.pdf")) by reflexivity.
  split; [reflexivity|]. split; [reflexivity|]. split; [exact Hr|].
  destruct (single_file_exposes_basename
              Scenario.one_file Scenario.file_world EmptyString "report%20one.pdf"
              (PickFS "/tmp/" [("report one.pdf", "report one.pdf")])
              eq_refl eq_refl Hr)
    as [abspath [dir [file [escaped [_ [_ [_ [_ [_ [Hplus Hu]]]]]]]]]].
  cbn [append] in Hu. rewrite Hu. exact Hplus.
Defined.

Lemma gate_is_total_and_guarded_witness :
  let req := Sample.request "/x" in
  Sample.slug <> EmptyString
  /\ URL req = Some (texturl.mkURL EmptyString "/x")
  /\ exists req' err, CheckAndRewriteSlug req Sample.slug = Return (req', err).
Proof.
  intros req.
  assert (Hne : Sample.slug <> EmptyString) by discriminate.
  split; [exact Hne|]. split; [reflexivity|].
  destruct (gate_is_total_and_guarded req Sample.slug
              (texturl.mkURL EmptyString "/x") Hne eq_refl)
    as [req' [err [Hc _]]].
  exists req', err. exact Hc.
Defined.

Lemma handler_panics_only_on_unparsable_remainder_witness :
  let req := Sample.request "/mfqwcylbmfqwcylb/index.html" in
  URL req = Some (texturl.mkURL EmptyString "/mfqwcylbmfqwcylb/index.html")
  /\ snd (handler Sample.with_slug Sample.slug PlainWriter req) = Return tt.
Proof.
  intros req. split; [reflexivity|].
  apply (proj2 (handler_panics_only_on_unparsable_remainder
                  Sample.with_slug Sample.slug PlainWriter req
                  (texturl.mkURL EmptyString "/mfqwcylbmfqwcylb/index.html")
                  eq_refl)).
  intros [_ [_ [err Herr]]]. discriminate Herr.
Defined.

Lemma matching_request_is_served_once_witness :
  let req := Sample.request "//mfqwcylbmfqwcylb/index.html" in
  Slug Sample.with_slug = true
  /\ make_slug Sample.with_slug Sample.quiet
     = Return (inr (Sample.slug, (Sample.slug ++ "/")%string))
  /\ texturl.Parse "/index.html" = inl (texturl.mkURL EmptyString "/index.html")
  /\ actions (handler Sample.with_slug Sample.slug PlainWriter req)
     = [FileServe (Sample.request "/index.html")].
Proof.
  intros req.
  split; [reflexivity|]. split; [reflexivity|]. split; [reflexivity|].
  apply (matching_request_is_served_once
           Sample.with_slug Sample.quiet Sample.slug (Sample.slug ++ "/")%string
           PlainWriter req
           (texturl.mkURL EmptyString "//mfqwcylbmfqwcylb/index.html")
           (texturl.mkURL EmptyString "/index.html") 2%nat "/index.html"
           eq_refl eq_refl eq_refl eq_refl eq_refl).
  discriminate.
Defined.

Lemma no_error_no_exit_witness :
  let sched := [Monitor; MainFlow; MainFlow; Monitor; MainFlow; MainFlow; Monitor] in
  Forall (fun e => e = None) (control_events Scenario.healthy)
  /\ (forall err, Serve_result Scenario.healthy <> Some (Some err))
  /\ exited (Onionize Sample.with_slug Scenario.healthy sched) = false.
Proof.
  intros sched.
  assert (Hc : Forall (fun e : option error => e = None)
                      (control_events Scenario.healthy))
    by (repeat constructor).
  assert (Hs : forall err, Serve_result Scenario.healthy <> Some (Some err))
    by (intros err; discriminate).
  split; [exact Hc|]. split; [exact Hs|].
  exact (proj1 (no_error_no_exit Sample.with_slug Scenario.healthy sched Hc Hs)).
Defined.

Lemma gate_decision_is_byte_equality_witness :
  let req := Sample.request "/mfqwcylbmfqwcylX/index.html" in
  Sample.slug <> EmptyString
  /\ (String.length Sample.slug
      <= String.length (strings.TrimLeft "/mfqwcylbmfqwcylX/index.html" "/"))%nat
  /\ subtle.ConstantTimeCompare (bytes_of_string Sample.slug)
                                (bytes_of_string "mfqwcylbmfqwcylX") = 0%Z
  /\ CheckAndRewriteSlug req Sample.slug = Return (req, Some "Wrong slug").
Proof.
  intros req.
  assert (Hne : Sample.slug <> EmptyString) by discriminate.
  assert (Hl : (String.length Sample.slug
                <= String.length (strings.TrimLeft "/mfqwcylbmfqwcylX/index.html" "/"))%nat)
    by (simpl; lia).
  split; [exact Hne|]. split; [exact Hl|].
  apply (proj2 (gate_decision_is_byte_equality
                  req Sample.slug
                  (texturl.mkURL EmptyString "/mfqwcylbmfqwcylX/index.html")
                  Hne eq_refl Hl)).
  discriminate.
Defined.
